(** * OCR text extractor: a shallow embedding and its checked properties

    The development follows the Python sources [ocr_processor.py] and
    [text_processor.py].

    - Python [str] values are sequences of Unicode code points: [list N].
    - Python [bytes] values and file contents are [list byte]; text-mode
      files go through the UTF-8 codec and the newline translation of
      Python.
    - Paths are lists of components below the working directory; the
      file system is a finite map from the paths of regular files to
      their contents, directories are implicit.
    - Everything that may raise (file I/O, the remote service) runs in a
      small state-and-exception monad over a [World]; whether the
      environment makes a call fail is read from a fault schedule carried
      by the world, one entry per fallible call.
    - The remote service is a map from document ids to their text
      export, filled by uploads and emptied by deletions.
    - POSIX conventions are used throughout: path matching is case
      sensitive and the line separator written in text mode is LF.
    - Console and log output is kept apart from the world of a run: the
      functions of the run are modelled without what they print, the
      logger of [logger.py] and [_display_processing_summary], which
      only prints, are modelled on their own after them. *)

From Stdlib Require Import ZArith NArith List Lia Ascii String.
From Stdlib Require Import DecimalString DecimalZ.
From Stdlib.Strings Require Import Byte.
From Stdlib Require Import Sorted.
From stdpp Require Import gmap strings list sorting.

Local Open Scope N_scope.

(** ** Text and bytes *)

Abbreviation text := (list N).
Abbreviation bytes := (list byte).
Abbreviation path := (list (list N)).

Definition LF : N := 10.
Definition CR : N := 13.
Definition SP : N := 32.

(** A literal written in the sources, as a [str]. *)
Definition text_of_string (s : string) : list N :=
  map N_of_ascii (list_ascii_of_string s).

Module PyStr.

(** [str.isspace] for one code point (the table of CPython's
    [_PyUnicode_IsWhitespace]); [str.split()] and [str.strip()] without
    arguments use it. *)
Definition isspace (c : N) : bool :=
  ((9 <=? c) && (c <=? 13)) || ((28 <=? c) && (c <=? 32))
  || (c =? 133) || (c =? 160) || (c =? 5760)
  || ((8192 <=? c) && (c <=? 8202))
  || (c =? 8232) || (c =? 8233) || (c =? 8239) || (c =? 8287)
  || (c =? 12288).

(** [s.replace(old, new)] for one-character [old] and [new]. *)
Definition replace (old new : N) (s : list N) : list N :=
  map (fun c => if c =? old then new else c) s.

(** [s.split(sep)] for a one-character separator: never empty, [k]
    separators give [k + 1] pieces. *)
Fixpoint split (sep : N) (s : list N) : list (list N) :=
  match s with
  | [] => [[]]
  | c :: s' =>
      if c =? sep then [] :: split sep s'
      else match split sep s' with
           | l :: ls => (c :: l) :: ls
           | [] => [[c]]
           end
  end.

(** [sep.join(pieces)]. *)
Fixpoint join {A} (sep : list A) (pieces : list (list A)) : list A :=
  match pieces with
  | [] => []
  | [p] => p
  | p :: ps => p ++ sep ++ join sep ps
  end.

(** [s.split()]: scan left to right, [word] is the run of non-blank
    characters collected since the last blank. *)
Definition emit (word : list N) (rest : list (list N)) : list (list N) :=
  match word with [] => rest | _ => word :: rest end.

Fixpoint split_scan (word : list N) (s : list N) : list (list N) :=
  match s with
  | [] => emit word []
  | c :: s' =>
      if isspace c then emit word (split_scan [] s')
      else split_scan (word ++ [c]) s'
  end.

Definition split_ws (s : list N) : list (list N) := split_scan [] s.

(** [s.strip()]. *)
Fixpoint lstrip (s : list N) : list N :=
  match s with
  | c :: s' => if isspace c then lstrip s' else s
  | [] => []
  end.

Definition rstrip (s : list N) : list N := rev (lstrip (rev s)).

Definition strip (s : list N) : list N := rstrip (lstrip s).

(** [str.upper] on the ASCII letters; other code points are returned as
    they are (the full Unicode case mapping is not needed for the ASCII
    extension lists this program is configured with). *)
Definition upper_char (c : N) : N :=
  if (97 <=? c) && (c <=? 122) then c - 32 else c.

Definition upper (s : list N) : list N := map upper_char s.

(** [s.startswith(p)] and [s.endswith(p)]. *)
Fixpoint startswith (p s : list N) : bool :=
  match p, s with
  | [], _ => true
  | a :: p', b :: s' => (a =? b) && startswith p' s'
  | _ :: _, [] => false
  end.

Definition endswith (p s : list N) : bool := startswith (rev p) (rev s).

(** [str(n)] for an [int]. *)
Definition of_int (z : Z) : list N :=
  text_of_string (NilZero.string_of_int (Z.to_int z)).

(** [str(n)] for a non-negative count. *)
Definition of_nat (n : nat) : list N := of_int (Z.of_nat n).

End PyStr.

(** ** The two text transforms of the pipeline *)

(** [extract_text_from_image], lines 143-148: drop the two metadata
    lines when there are more than two lines. *)
Definition strip_metadata (content : list N) : list N :=
  let lines := PyStr.split LF content in
  if (2 <? length lines)%nat then PyStr.join [LF] (drop 2 lines)
  else content.

(** [clean_text_file], lines 30-34: line breaks become spaces, then
    blank runs collapse. *)
Definition clean_text (content : list N) : list N :=
  let cleaned_content := PyStr.replace CR SP (PyStr.replace LF SP content) in
  PyStr.join [SP] (PyStr.split_ws cleaned_content).

(** ** UTF-8, as the [utf-8] codec of Python implements it *)

Module Utf8.

Definition byte_of (n : N) : byte := default x00 (Byte.of_N n).

Definition encode_char (c : N) : option (list byte) :=
  if c <? 0x80 then Some [byte_of c]
  else if c <? 0x800 then
    Some [byte_of (0xC0 + c / 64); byte_of (0x80 + c mod 64)]
  else if c <? 0x10000 then
    if (0xD800 <=? c) && (c <=? 0xDFFF) then None
    else Some [byte_of (0xE0 + c / 4096);
               byte_of (0x80 + (c / 64) mod 64);
               byte_of (0x80 + c mod 64)]
  else if c <? 0x110000 then
    Some [byte_of (0xF0 + c / 262144);
          byte_of (0x80 + (c / 4096) mod 64);
          byte_of (0x80 + (c / 64) mod 64);
          byte_of (0x80 + c mod 64)]
  else None.

(** [s.encode('utf-8')]; [None] stands for [UnicodeEncodeError]. *)
Fixpoint encode (s : list N) : option (list byte) :=
  match s with
  | [] => Some []
  | c :: s' =>
      match encode_char c, encode s' with
      | Some b, Some bs => Some (b ++ bs)
      | _, _ => None
      end
  end.

Definition is_cont (b : N) : bool := (0x80 <=? b) && (b <? 0xC0).

Definition cons_opt (c : N) (r : option (list N)) : option (list N) :=
  match r with Some s => Some (c :: s) | None => None end.

Fixpoint decode_N (bs : list N) : option (list N) :=
  match bs with
  | [] => Some []
  | b0 :: r0 =>
      if b0 <? 0x80 then cons_opt b0 (decode_N r0)
      else if b0 <? 0xC2 then None
      else if b0 <? 0xE0 then
        match r0 with
        | b1 :: r1 =>
            if is_cont b1
            then cons_opt ((b0 - 0xC0) * 64 + (b1 - 0x80)) (decode_N r1)
            else None
        | _ => None
        end
      else if b0 <? 0xF0 then
        match r0 with
        | b1 :: b2 :: r2 =>
            let c := (b0 - 0xE0) * 4096 + (b1 - 0x80) * 64 + (b2 - 0x80) in
            if is_cont b1 && is_cont b2
               && negb (c <? 0x800)
               && negb ((0xD800 <=? c) && (c <=? 0xDFFF))
            then cons_opt c (decode_N r2)
            else None
        | _ => None
        end
      else if b0 <? 0xF5 then
        match r0 with
        | b1 :: b2 :: b3 :: r3 =>
            let c := (b0 - 0xF0) * 262144 + (b1 - 0x80) * 4096
                     + (b2 - 0x80) * 64 + (b3 - 0x80) in
            if is_cont b1 && is_cont b2 && is_cont b3
               && negb (c <? 0x10000) && (c <? 0x110000)
            then cons_opt c (decode_N r3)
            else None
        | _ => None
        end
      else None
  end.

(** [b.decode('utf-8')]; [None] stands for [UnicodeDecodeError]. *)
Definition decode (b : list byte) : option (list N) :=
  decode_N (map Byte.to_N b).

End Utf8.

(** Reading a file opened in text mode with the default [newline=None]
    translates CR LF and a lone CR to LF. *)
Fixpoint universal_newlines (s : list N) : list N :=
  match s with
  | [] => []
  | c :: s' =>
      if c =? CR then
        LF :: match s' with
              | d :: s'' =>
                  if d =? LF then universal_newlines s''
                  else universal_newlines s'
              | [] => []
              end
      else c :: universal_newlines s'
  end.

(** ** Paths *)

Module PyPath.

(** [p.name]: the last component. *)
Definition name (p : path) : text := List.last p [].

(** [name.rfind('.')]: index of the last dot, if any. *)
Fixpoint rfind_dot (s : text) : option nat :=
  match s with
  | [] => None
  | c :: s' =>
      match rfind_dot s' with
      | Some i => Some (S i)
      | None => if c =? 46 then Some 0%nat else None
      end
  end.

(** [p.stem] of [pathlib]: the name up to its last dot, unless that dot
    is the first or the last character. *)
Definition stem_of_name (n : text) : text :=
  match rfind_dot n with
  | Some i =>
      if (0 <? i)%nat && (i <? length n - 1)%nat then take i n else n
  | None => n
  end.

Definition stem (p : path) : text := stem_of_name (name p).

(** [dir / name]. *)
Definition child (dir : path) (n : text) : path := dir ++ [n].

(** [p] lies directly in [dir]. *)
Definition is_child_of (dir p : path) : bool :=
  bool_decide (p = child dir (name p)).

(** [p] lies somewhere below [dir]. *)
Fixpoint is_below (dir p : path) : bool :=
  match dir, p with
  | [], _ :: _ => true
  | d :: dir', c :: p' => bool_decide (d = c) && is_below dir' p'
  | _, [] => false
  end.

(** The order [sorted] uses on paths: component lists compared
    lexicographically, components compared code point by code point. *)
Fixpoint lex_compare {A} (cmp : A -> A -> comparison) (l1 l2 : list A)
  : comparison :=
  match l1, l2 with
  | [], [] => Eq
  | [], _ :: _ => Lt
  | _ :: _, [] => Gt
  | x :: l1', y :: l2' =>
      match cmp x y with
      | Eq => lex_compare cmp l1' l2'
      | c => c
      end
  end.

Definition text_compare : text -> text -> comparison := lex_compare N.compare.
Definition compare : path -> path -> comparison := lex_compare text_compare.

Definition le (p q : path) : Prop := compare p q <> Gt.

#[global] Instance le_dec p q : Decision (le p q).
Proof. unfold le. destruct (compare p q); [left|left|right]; congruence. Defined.

(** [sorted(paths)]. *)
Definition sorted (l : list path) : list path := merge_sort le l.

End PyPath.

(** ** The environment *)

(** Exceptions derived from [Exception]; the handlers of the program
    tell [HttpError] from the rest and print the message. *)
Inductive error : Type :=
  | HttpError (msg : text)
  | OtherError (msg : text).

(** What unwinds the stack: an [Exception], or the [SystemExit] raised
    by [sys.exit], which [except Exception] does not catch. *)
Inductive exn : Type :=
  | Exc (e : error)
  | SystemExit (code : Z).

Definition error_message (e : error) : text :=
  match e with HttpError m => m | OtherError m => m end.

(** The calls a run makes to the remote service and to its own
    combination step, in order. *)
Inductive Event : Type :=
  | EvUpload (name : text) (id : N)
  | EvExport (id : N)
  | EvDelete (id : N)
  | EvHandleCombination.

Record World : Type := mkWorld {
  fs : gmap (list (list N)) (list byte);  (** regular files *)
  drive : gmap N (list byte);  (** remote documents: id to text export *)
  next_id : N;                 (** the id the next upload receives *)
  recognise : list byte -> list byte;  (** the OCR of the service *)
  localtime : Z -> list N;     (** [strftime('%Y-%m-%d %H:%M:%S')] *)
  auth_ok : bool;              (** can credentials be obtained *)
  service : bool;              (** [self.service] is set *)
  faults : list (option error);  (** outcome of the next fallible calls *)
  clock : list Z;              (** next readings of [int(time.time())] *)
  trace : list Event
}.

Definition with_fs (f : gmap (list (list N)) (list byte)) (w : World) : World :=
  mkWorld f (drive w) (next_id w) (recognise w) (localtime w)
          (auth_ok w) (service w) (faults w) (clock w) (trace w).
Definition with_drive (d : gmap N (list byte)) (n : N) (w : World) : World :=
  mkWorld (fs w) d n (recognise w) (localtime w)
          (auth_ok w) (service w) (faults w) (clock w) (trace w).
Definition with_service (b : bool) (w : World) : World :=
  mkWorld (fs w) (drive w) (next_id w) (recognise w) (localtime w)
          (auth_ok w) b (faults w) (clock w) (trace w).
Definition with_faults (f : list (option error)) (w : World) : World :=
  mkWorld (fs w) (drive w) (next_id w) (recognise w) (localtime w)
          (auth_ok w) (service w) f (clock w) (trace w).
Definition with_clock (c : list Z) (w : World) : World :=
  mkWorld (fs w) (drive w) (next_id w) (recognise w) (localtime w)
          (auth_ok w) (service w) (faults w) c (trace w).
Definition log_event (e : Event) (w : World) : World :=
  mkWorld (fs w) (drive w) (next_id w) (recognise w) (localtime w)
          (auth_ok w) (service w) (faults w) (clock w) (trace w ++ [e]).

(** ** The monad of effects *)

Inductive outcome (A : Type) : Type :=
  | Return (a : A)
  | Raise (e : exn).
Arguments Return {A} a.
Arguments Raise {A} e.

Definition M (A : Type) : Type := World -> outcome A * World.

Definition ret {A} (a : A) : M A := fun w => (Return a, w).

Definition bind {A B} (m : M A) (k : A -> M B) : M B :=
  fun w =>
    match m w with
    | (Return a, w') => k a w'
    | (Raise e, w') => (Raise e, w')
    end.

Definition raise {A} (e : error) : M A := fun w => (Raise (Exc e), w).

(** [try: m  except Exception as e: h e]. *)
Definition try_except {A} (m : M A) (h : error -> M A) : M A :=
  fun w =>
    match m w with
    | (Raise (Exc e), w') => h e w'
    | r => r
    end.

Definition get {A} (f : World -> A) : M A := fun w => (Return (f w), w).
Definition modify (f : World -> World) : M unit := fun w => (Return tt, f w).

Declare Scope io_scope.
Delimit Scope io_scope with io.
Notation "x <- m ;; k" := (bind m (fun x => k))
  (at level 100, m at next level, right associativity) : io_scope.
Notation "m ;;; k" := (bind m (fun _ => k))
  (at level 100, right associativity) : io_scope.
Local Open Scope io_scope.

(** A point where the environment may make the call in progress fail:
    the next entry of the schedule says whether it does; an exhausted
    schedule means no more failures. *)
Definition fault : M unit :=
  fun w =>
    match faults w with
    | [] => (Return tt, w)
    | None :: rest => (Return tt, with_faults rest w)
    | Some e :: rest => (Raise (Exc e), with_faults rest w)
    end.

(** [int(time.time())]. *)
Definition time_now : M Z :=
  fun w =>
    match clock w with
    | [] => (Return 0%Z, w)
    | t :: rest => (Return t, with_clock rest w)
    end.

Definition lit (s : string) : text := text_of_string s.

(** *** Local files.  Writes reach the file at once; closing never fails. *)

(** [p.exists()]. *)
Definition path_exists (p : path) : M bool :=
  get (fun w => bool_decide (is_Some (fs w !! p))).

(** [open(p, 'r')] or [open(p, 'rb')]. *)
Definition open_read (p : path) : M unit :=
  fault ;;;
  o <- get (fun w => fs w !! p) ;;
  match o with
  | Some _ => ret tt
  | None => raise (OtherError (lit "[Errno 2] No such file or directory"))
  end.

(** [f.read()] on a file opened in binary mode at [p]. *)
Definition read_bytes (p : path) : M bytes :=
  fault ;;; get (fun w => default [] (fs w !! p)).

(** [f.read()] on a file opened with [encoding='utf-8'] at [p]. *)
Definition read_text (p : path) : M text :=
  b <- read_bytes p ;;
  match Utf8.decode b with
  | Some s => ret (universal_newlines s)
  | None => raise (OtherError (lit "'utf-8' codec can't decode"))
  end.

(** [open(p, 'w')] or [open(p, 'wb')]: creates or truncates. *)
Definition open_write (p : path) : M unit :=
  fault ;;; modify (fun w => with_fs (<[p := []]> (fs w)) w).

(** [f.write(data)] on a file opened for writing at [p]. *)
Definition write_bytes (p : path) (data : bytes) : M unit :=
  fault ;;;
  modify (fun w => with_fs (<[p := default [] (fs w !! p) ++ data]> (fs w)) w).

(** [f.write(s)] on a file opened in text mode with [encoding='utf-8']. *)
Definition write_text (p : path) (s : text) : M unit :=
  match Utf8.encode s with
  | Some b => write_bytes p b
  | None => raise (OtherError (lit "'utf-8' codec can't encode"))
  end.

(** *** The remote service *)

(** [files().create(body, media_body=MediaFileUpload(path)).execute()]:
    the upload reads the image and leaves a document on the drive. *)
Definition upload (image_path : path) (imgname : text) : M N :=
  open_read image_path ;;;
  img <- read_bytes image_path ;;
  fault ;;;
  fun w =>
    let id := next_id w in
    (Return id,
     log_event (EvUpload imgname id)
       (with_drive (<[id := recognise w img]> (drive w)) (id + 1) w)).

(** [files().export_media(fileId, 'text/plain')] downloaded chunk by
    chunk into a buffer; the loop is collapsed into one fallible call. *)
Definition export_media (file_id : N) : M bytes :=
  fault ;;;
  modify (log_event (EvExport file_id)) ;;;
  o <- get (fun w => drive w !! file_id) ;;
  match o with
  | Some b => ret b
  | None => raise (HttpError (lit "File not found"))
  end.

(** [files().delete(fileId).execute()]. *)
Definition delete_file (file_id : N) : M unit :=
  fault ;;;
  modify (fun w =>
    log_event (EvDelete file_id)
      (with_drive (delete file_id (drive w)) (next_id w) w)).

(** ** Configuration *)

Module OCRConfig.

(** Modelled from the spec: the configuration record of [config.py],
    which is not among the sources.  Its fields are the settings the two
    modules read and section 6 of the specification lists: the three
    directories (given here as paths below the working directory), the
    allow-list of extensions and the three combination toggles.  The
    settings that only steer logging and authentication are left out. *)
Record t : Type := mk {
  images_dir : path;
  raw_texts_dir : path;
  texts_dir : path;
  supported_extensions : list text;
  combine_texts : bool;
  combine_raw : bool;
  include_headers : bool
}.
End OCRConfig.

(** ** [text_processor.py] *)

Module TextProcessor.
Section TextProcessor.
Variable config : OCRConfig.t.

Definition texts_dir : path := OCRConfig.texts_dir config.
Definition raw_texts_dir : path := OCRConfig.raw_texts_dir config.

(** [clean_text_file], the body of the outer [try] (lines 27-37). *)
Definition clean_attempt (raw_file clean_file : path) : M unit :=
  open_read raw_file ;;;
  content <- read_text raw_file ;;
  let cleaned_content := clean_text content in
  open_write clean_file ;;;
  write_text clean_file cleaned_content.

(** [clean_text_file], the body of the inner [try] (lines 46-48): the
    raw file is opened, then the clean file, then one is copied into the
    other. *)
Definition copy_raw (raw_file clean_file : path) : M unit :=
  open_read raw_file ;;;
  open_write clean_file ;;;
  raw <- read_text raw_file ;;
  write_text clean_file raw.

Definition clean_text_file (raw_file clean_file : path) : M unit :=
  try_except
    (clean_attempt raw_file clean_file)
    (fun _ =>
       try_except (copy_raw raw_file clean_file) (fun _ => ret tt)).

Definition _get_text_directory (output_dir : text) : option path :=
  if bool_decide (output_dir = lit "texts") then Some texts_dir
  else if bool_decide (output_dir = lit "raw_texts") then Some raw_texts_dir
  else None.

(** [text_dir.glob('*.txt')]: the files directly in [text_dir] whose
    name ends in [.txt]. *)
Definition glob_txt (text_dir : path) : M (list path) :=
  get (fun w =>
    List.filter
      (fun p => PyPath.is_child_of text_dir p
                && PyStr.endswith (lit ".txt") (PyPath.name p))
      (map fst (map_to_list (fs w)))).

Definition _get_combinable_files (text_dir : path) : M (list path) :=
  all_txt_files <- glob_txt text_dir ;;
  ret (List.filter
         (fun f => negb (PyStr.startswith (lit "combined_") (PyPath.name f)))
         all_txt_files).

Definition separator : bytes :=
  [x0a; x0a] ++ list_byte_of_string "--- Next File ---" ++ [x0a; x0a].

(** The body of the [for i, txt_file in enumerate(sorted(txt_files))]
    loop of [combine_texts], from index [i] on; [n] is [len(txt_files)]. *)
Fixpoint copy_files (output_path : path) (n i : nat) (files : list path)
  : M unit :=
  match files with
  | [] => ret tt
  | txt_file :: rest =>
      open_read txt_file ;;;
      data <- read_bytes txt_file ;;
      write_bytes output_path data ;;;
      (if (i <? n - 1)%nat then write_bytes output_path separator
       else ret tt) ;;;
      copy_files output_path n (S i) rest
  end.

Definition combine_texts (output_dir : text) : M (option path) :=
  try_except
    (match _get_text_directory output_dir with
     | None => ret None
     | Some text_dir =>
         txt_files <- _get_combinable_files text_dir ;;
         match txt_files with
         | [] => ret None
         | _ =>
             timestamp <- time_now ;;
             let outfilename :=
               lit "combined_all_" ++ PyStr.of_int timestamp ++ lit ".txt" in
             let output_path := PyPath.child text_dir outfilename in
             open_write output_path ;;;
             copy_files output_path (length txt_files) 0
                        (PyPath.sorted txt_files) ;;;
             ret (Some output_path)
         end
     end)
    (fun _ => ret None).

Definition _write_combined_file_header (outfile : path) (file_prefix : text)
    (file_count : nat) : M unit :=
  write_text outfile
    (lit "Combined " ++ PyStr.upper file_prefix ++ lit " OCR Text Files"
     ++ [LF]) ;;;
  t <- time_now ;;
  stamp <- get (fun w => localtime w t) ;;
  write_text outfile (lit "Generated: " ++ stamp ++ [LF]) ;;;
  write_text outfile (lit "Total files: " ++ PyStr.of_nat file_count ++ [LF]) ;;;
  write_text outfile (repeat 61 80 ++ [LF; LF]).

Definition _write_file_separator (outfile : path) (file_number : nat)
    (filename : text) : M unit :=
  write_text outfile (repeat 61 60 ++ [LF]) ;;;
  write_text outfile
    (lit "FILE " ++ PyStr.of_nat file_number ++ lit ": " ++ filename ++ [LF]) ;;;
  write_text outfile (repeat 61 60 ++ [LF; LF]).

Definition _write_file_content (outfile txt_file : path) : M unit :=
  try_except
    (open_read txt_file ;;;
     raw <- read_text txt_file ;;
     let content := PyStr.strip raw in
     (match content with
      | [] => write_text outfile (lit "[No content or empty file]")
      | _ => write_text outfile content
      end) ;;;
     write_text outfile [LF])
    (fun file_error =>
       write_text outfile
         (lit "[Error reading file: " ++ error_message file_error
          ++ lit "]" ++ [LF])).

(** The loop of [combine_texts_with_headers], from index [i] on. *)
Fixpoint write_files (output_path : path) (n i : nat) (files : list path)
  : M unit :=
  match files with
  | [] => ret tt
  | txt_file :: rest =>
      _write_file_separator output_path (i + 1) (PyPath.name txt_file) ;;;
      _write_file_content output_path txt_file ;;;
      (if (i <? n - 1)%nat
       then write_text output_path ([LF] ++ repeat 45 40 ++ [LF; LF])
       else ret tt) ;;;
      write_files output_path n (S i) rest
  end.

Definition combine_texts_with_headers (output_dir : text) : M (option path) :=
  try_except
    (match _get_text_directory output_dir with
     | None => ret None
     | Some text_dir =>
         let file_prefix :=
           if bool_decide (output_dir = lit "texts") then lit "cleaned"
           else lit "raw" in
         txt_files <- _get_combinable_files text_dir ;;
         match txt_files with
         | [] => ret None
         | _ =>
             timestamp <- time_now ;;
             let outfilename :=
               lit "combined_" ++ file_prefix ++ lit "_"
               ++ PyStr.of_int timestamp ++ lit ".txt" in
             let output_path := PyPath.child text_dir outfilename in
             open_write output_path ;;;
             _write_combined_file_header output_path file_prefix
                                         (length txt_files) ;;;
             write_files output_path (length txt_files) 0
                         (PyPath.sorted txt_files) ;;;
             ret (Some output_path)
         end
     end)
    (fun _ => ret None).

End TextProcessor.
End TextProcessor.

(** ** [ocr_processor.py] *)

(** The per-run summary [process_all_images] returns.  The entries of
    [processed_files] are kept as paths, the program stores their
    [str]. *)
Record ProcessingResult : Type := mkResult {
  total : nat;
  successful : nat;
  failed : nat;
  errors : list text;
  processed_files : list path
}.

Module OCRProcessor.
Section OCRProcessor.
Variable config : OCRConfig.t.

Definition images_dir : path := OCRConfig.images_dir config.
Definition raw_texts_dir : path := OCRConfig.raw_texts_dir config.
Definition texts_dir : path := OCRConfig.texts_dir config.

(** [auth.initialize_service]: the service, or [sys.exit(1)]. *)
Definition initialize_service : M unit :=
  fun w =>
    if auth_ok w then (Return tt, with_service true w)
    else (Raise (SystemExit 1), w).

(** [images_dir.rglob('*' + suffix)]: the files anywhere below
    [images_dir] whose name ends in [suffix] (a suffix without pattern
    characters). *)
Definition rglob (suffix : text) : M (list path) :=
  get (fun w =>
    List.filter
      (fun p => PyPath.is_below images_dir p
                && PyStr.endswith suffix (PyPath.name p))
      (map fst (map_to_list (fs w)))).

Fixpoint collect_image_files (exts : list text) : M (list path) :=
  match exts with
  | [] => ret []
  | ext :: rest =>
      lower <- rglob ext ;;
      upper <- rglob (PyStr.upper ext) ;;
      more <- collect_image_files rest ;;
      ret (lower ++ upper ++ more)
  end.

(** The loop over [sorted(image_files)] that keeps the first path of
    each stem. *)
Fixpoint unique_by_stem (seen_stems : gset (list N)) (files : list path)
  : list path :=
  match files with
  | [] => []
  | file_path :: rest =>
      if decide (PyPath.stem file_path ∈ seen_stems)
      then unique_by_stem seen_stems rest
      else file_path
           :: unique_by_stem ({[PyPath.stem file_path]} ∪ seen_stems) rest
  end.

Definition get_image_files : M (list path) :=
  image_files <- collect_image_files (OCRConfig.supported_extensions config) ;;
  match image_files with
  | [] => ret []
  | _ => ret (unique_by_stem ∅ (PyPath.sorted image_files))
  end.

Definition artifact (dir : path) (name_without_ext : text) : path :=
  PyPath.child dir (name_without_ext ++ lit ".txt").

Definition extract_text_from_image (image_path : path)
  : M (bool * option text) :=
  try_except
    (let imgname := PyPath.name image_path in
     let name_without_ext := PyPath.stem image_path in
     let raw_txtfile := artifact raw_texts_dir name_without_ext in
     let txtfile := artifact texts_dir name_without_ext in
     txt_there <- path_exists txtfile ;;
     raw_there <- path_exists raw_txtfile ;;
     if txt_there && raw_there then ret (true, None)
     else
       file_id <- upload image_path imgname ;;
       exported <- export_media file_id ;;
       match Utf8.decode exported with
       | None => raise (OtherError (lit "'utf-8' codec can't decode"))
       | Some content =>
           let cleaned_content := strip_metadata content in
           open_write raw_txtfile ;;;
           write_text raw_txtfile cleaned_content ;;;
           delete_file file_id ;;;
           TextProcessor.clean_text_file raw_txtfile txtfile ;;;
           ret (true, None)
       end)
    (fun e =>
       match e with
       | HttpError m =>
           ret (false,
                Some (lit "Google API error processing "
                      ++ PyPath.name image_path ++ lit ": " ++ m))
       | OtherError m =>
           ret (false,
                Some (lit "Error processing "
                      ++ PyPath.name image_path ++ lit ": " ++ m))
       end).

Definition _handle_text_combination : M unit :=
  modify (log_event EvHandleCombination) ;;;
  (if OCRConfig.combine_texts config then
     if OCRConfig.include_headers config
     then TextProcessor.combine_texts_with_headers config (lit "texts") ;;; ret tt
     else TextProcessor.combine_texts config (lit "texts") ;;; ret tt
   else ret tt) ;;;
  (if OCRConfig.combine_raw config then
     if OCRConfig.include_headers config
     then TextProcessor.combine_texts_with_headers config (lit "raw_texts") ;;; ret tt
     else TextProcessor.combine_texts config (lit "raw_texts") ;;; ret tt
   else ret tt).

(** The counters of the [for] loop of [process_all_images]. *)
Record Tally : Type := mkTally {
  t_successful : nat;
  t_failed : nat;
  t_errors : list text;
  t_processed_files : list path
}.

Definition record_outcome (image_path : path) (r : bool * option text)
    (t : Tally) : Tally :=
  let '(success, error_msg) := r in
  if success then
    mkTally (t_successful t + 1) (t_failed t) (t_errors t)
            (t_processed_files t ++ [image_path])
  else
    mkTally (t_successful t) (t_failed t + 1)
            (match error_msg with
             | Some ((_ :: _) as m) => t_errors t ++ [m]
             | _ => t_errors t
             end)
            (t_processed_files t).

Fixpoint process_loop (image_files : list path) (t : Tally) : M Tally :=
  match image_files with
  | [] => ret t
  | image_path :: rest =>
      r <- extract_text_from_image image_path ;;
      process_loop rest (record_outcome image_path r t)
  end.

Definition process_all_images : M ProcessingResult :=
  ready <- get service ;;
  (if ready then ret tt else initialize_service) ;;;
  image_files <- get_image_files ;;
  match image_files with
  | [] => ret (mkResult 0 0 0 [] [])
  | _ =>
      t <- process_loop image_files (mkTally 0 0 [] []) ;;
      let results :=
        mkResult (length image_files) (t_successful t) (t_failed t)
                 (t_errors t) (t_processed_files t) in
      (if (0 <? t_successful t)%nat then _handle_text_combination
       else ret tt) ;;;
      ret results
  end.

End OCRProcessor.
End OCRProcessor.

(** ** [logger.py] *)

(** Console and log output, kept apart from the world of the run: what
    has been printed, line by line, and the records the file handler of
    the log has received. *)

Module OCRLogger.

(** The colour codes of [config.Colors]; [config.py] is not among the
    sources, so they are parameters of the logger. *)
Record Colors : Type := mkColors {
  WHITE : text;
  GREEN : text;
  YELLOW : text;
  RED : text;
  BOLD : text;
  CYAN : text;
  RESET : text
}.

(** The levels of the [logging] module the logger uses. *)
Inductive Level : Type := DEBUG | INFO | WARNING | ERROR.

Definition levelno (l : Level) : nat :=
  match l with DEBUG => 10 | INFO => 20 | WARNING => 30 | ERROR => 40 end.

Record Output : Type := mkOutput {
  console : list text;            (** the lines printed, oldest first *)
  logfile : list (Level * text)   (** the records written to the log *)
}.

Section OCRLogger.
Variable colors : Colors.
Variable enable_file_logging : bool.

(** [print(line)]. *)
Definition print (line : text) (o : Output) : Output :=
  mkOutput (console o ++ [line]) (logfile o).

(** [if self.logger: self.logger.log(l, message)]: without file logging
    [self.logger] is [None] (line 27); with it the logger has the level
    INFO (line 19) and one file handler (lines 21-25). *)
Definition log (l : Level) (message : text) (o : Output) : Output :=
  if enable_file_logging then
    if (levelno INFO <=? levelno l)%nat
    then mkOutput (console o) (logfile o ++ [(l, message)])
    else o
  else o.

Definition info (message : text) (color : text) (o : Output) : Output :=
  log INFO message (print (color ++ message ++ RESET colors) o).

Definition success (message : text) (o : Output) : Output :=
  log INFO (lit "SUCCESS: " ++ message)
      (print (GREEN colors ++ message ++ RESET colors) o).

Definition warning (message : text) (o : Output) : Output :=
  log WARNING message (print (YELLOW colors ++ message ++ RESET colors) o).

Definition error (message : text) (o : Output) : Output :=
  log ERROR message (print (RED colors ++ message ++ RESET colors) o).

Definition debug (message : text) (o : Output) : Output :=
  log DEBUG message o.

End OCRLogger.
End OCRLogger.

(** ** The summary of a run: [ocr_processor.py], lines 230-247 *)

Module Summary.
Section Summary.
Variable colors : OCRLogger.Colors.
Variable enable_file_logging : bool.

Definition info := OCRLogger.info colors enable_file_logging.
Definition success := OCRLogger.success colors enable_file_logging.
Definition error := OCRLogger.error colors enable_file_logging.

(** [for error in errors: self.logger.error(f"  - {error}")]. *)
Fixpoint show_errors (errors : list text) (o : OCRLogger.Output)
  : OCRLogger.Output :=
  match errors with
  | [] => o
  | e :: rest => show_errors rest (error (lit "  - " ++ e) o)
  end.

Definition _display_processing_summary (successful failed : nat)
    (errors : list text) (o : OCRLogger.Output) : OCRLogger.Output :=
  let o := info ([LF] ++ repeat 61%N 60) (OCRLogger.WHITE colors) o in
  let o := info (lit "PROCESSING SUMMARY") (OCRLogger.BOLD colors) o in
  let o := info (repeat 61%N 60) (OCRLogger.WHITE colors) o in
  let o :=
    if (0 <? successful)%nat
    then success (lit "Successfully processed: " ++ PyStr.of_nat successful
                  ++ lit " files") o
    else o in
  let o :=
    if (0 <? failed)%nat then
      let o := error (lit "Failed to process: " ++ PyStr.of_nat failed
                      ++ lit " files") o in
      match errors with
      | [] => o
      | _ =>
          let o := error (lit "Error details:") o in
          (* errors[-5:] *)
          show_errors (drop (length errors - 5) errors) o
      end
    else o in
  if (successful =? 0)%nat && (0 <? failed)%nat
  then error (lit "No files were successfully processed. "
              ++ lit "Please check your configuration and try again.") o
  else o.

End Summary.
End Summary.

(** * Vocabulary of the statements *)

(** ** Words and blanks *)

Definition nonblank (u : list N) : Prop :=
  Forall (fun c => PyStr.isspace c = false) u.

Definition is_word (u : list N) : Prop := u <> [] /\ nonblank u.

(** Two spaces in a row, as a computation. *)
Fixpoint adjacent_spaces (s : list N) : bool :=
  match s with
  | a :: s' =>
      match s' with
      | b :: _ => ((a =? SP) && (b =? SP)) || adjacent_spaces s'
      | [] => false
      end
  | [] => false
  end.

(** ** Properties of computations

    [ok R m]: whatever the world, running [m] leaves a world related to
    the initial one by [R] and does not end in [SystemExit].  The
    relation is a parameter: it is instantiated with "the trace grows by
    remote calls only", "no file disappears" and "files outside a given
    set are untouched". *)

Definition no_exit {A} (o : outcome A) : Prop :=
  match o with Raise (SystemExit _) => False | _ => True end.

Definition ok (R : relation World) {A} (m : M A) : Prop :=
  forall w, R w (snd (m w)) /\ no_exit (fst (m w)).

(** [returns m]: [m] always ends normally. *)
Definition returns {A} (m : M A) : Prop :=
  forall w, exists a w', m w = (Return a, w').

(** [reads_fs m]: [m] returns, changes nothing, and its result depends
    on the files only. *)
Definition reads_fs {A} (m : M A) : Prop :=
  forall w, exists a,
    m w = (Return a, w) /\ forall w2, fs w2 = fs w -> m w2 = (Return a, w2).

(** The relation that holds of any two worlds: [ok] then only says that
    the process is not exited. *)
Definition any_world : relation World := fun _ _ => True.

(** The trace grows, and not by an invocation of the combination. *)
Definition trace_grows : relation World := fun w w' =>
  exists evs, trace w' = trace w ++ evs /\ EvHandleCombination ∉ evs.

(** No file disappears. *)
Definition files_kept : relation World := fun w w' =>
  forall p, is_Some (fs w !! p) -> is_Some (fs w' !! p).

(** Files outside [touched] keep their content, or their absence. *)
Definition frame (touched : path -> Prop) : relation World := fun w w' =>
  forall p, ~ touched p -> fs w' !! p = fs w !! p.

(** The combined outputs: every file whose name starts with the prefix
    of combined artifacts. *)
Definition combined_name (p : path) : Prop :=
  PyStr.startswith (lit "combined_") (PyPath.name p) = true.

(** ** Batch runs *)

(** The image files a run started in [w] works on. *)
Definition discovered (config : OCRConfig.t) (w : World) : list path :=
  match fst (OCRProcessor.get_image_files config w) with
  | Return l => l
  | Raise _ => []
  end.

(** A file below the images directory whose name ends in a listed
    extension or in the upper-case form of one. *)
Definition image_candidate (config : OCRConfig.t) (w : World) (p : path) : Prop :=
  is_Some (fs w !! p)
  /\ PyPath.is_below (OCRProcessor.images_dir config) p = true
  /\ exists ext,
       ext ∈ OCRConfig.supported_extensions config
       /\ (PyStr.endswith ext (PyPath.name p) = true
           \/ PyStr.endswith (PyStr.upper ext) (PyPath.name p) = true).

(** Both artifacts of [image_path] exist: the test of lines 92-96. *)
Definition already_processed (config : OCRConfig.t) (w : World)
    (image_path : path) : Prop :=
  is_Some (fs w !! OCRProcessor.artifact (OCRProcessor.texts_dir config)
                                         (PyPath.stem image_path))
  /\ is_Some (fs w !! OCRProcessor.artifact (OCRProcessor.raw_texts_dir config)
                                            (PyPath.stem image_path)).

(** The artifacts of the image [p]. *)
Definition artifacts_of (config : OCRConfig.t) (p : path) (x : path) : Prop :=
  x = OCRProcessor.artifact (OCRProcessor.raw_texts_dir config) (PyPath.stem p)
  \/ x = OCRProcessor.artifact (OCRProcessor.texts_dir config) (PyPath.stem p).

Definition result_of (files : list path) (t : OCRProcessor.Tally)
  : ProcessingResult :=
  mkResult (length files) (OCRProcessor.t_successful t)
           (OCRProcessor.t_failed t) (OCRProcessor.t_errors t)
           (OCRProcessor.t_processed_files t).

Definition empty_tally : OCRProcessor.Tally := OCRProcessor.mkTally 0 0 [] [].

(** A run either exits while authenticating, or finds nothing, or goes
    through the loop and, when something succeeded, the combination. *)
Inductive batch_run (config : OCRConfig.t) (w : World)
  : outcome ProcessingResult -> World -> Prop :=
  | run_exit :
      service w = false -> auth_ok w = false ->
      batch_run config w (Raise (SystemExit 1)) w
  | run_empty w1 :
      w1 = (if service w then w else with_service true w) ->
      service w || auth_ok w = true ->
      discovered config w = [] ->
      batch_run config w (Return (mkResult 0 0 0 [] [])) w1
  | run_loop w1 t w2 w3 :
      w1 = (if service w then w else with_service true w) ->
      service w || auth_ok w = true ->
      discovered config w <> [] ->
      OCRProcessor.process_loop config (discovered config w) empty_tally w1
      = (Return t, w2) ->
      (if (0 <? OCRProcessor.t_successful t)%nat
       then OCRProcessor._handle_text_combination config w2 = (Return tt, w3)
       else w3 = w2) ->
      batch_run config w (Return (result_of (discovered config w) t)) w3.

(** ** Combination *)

(** The files a combination over [text_dir] started in [w] works on. *)
Definition candidates (text_dir : path) (w : World) : list path :=
  match fst (TextProcessor._get_combinable_files text_dir w) with
  | Return l => l
  | Raise _ => []
  end.

(** The next reading of the clock. *)
Definition next_time (w : World) : Z :=
  match clock w with [] => 0%Z | t :: _ => t end.

(** The output paths of a combination started in [w]. *)
Definition no_header_output (text_dir : path) (w : World) : path :=
  PyPath.child text_dir
    (lit "combined_all_" ++ PyStr.of_int (next_time w) ++ lit ".txt").

Definition header_prefix (output_dir : text) : text :=
  if bool_decide (output_dir = lit "texts") then lit "cleaned" else lit "raw".

Definition header_output (output_dir : text) (text_dir : path) (w : World)
  : path :=
  PyPath.child text_dir
    (lit "combined_" ++ header_prefix output_dir ++ lit "_"
     ++ PyStr.of_int (next_time w) ++ lit ".txt").


Definition content_in (w : World) (f : path) : list byte :=
  default [] (fs w !! f).

(** ** Sample inputs *)

Module Sample.

Definition b (s : string) : list byte := list_byte_of_string s.

Definition config : OCRConfig.t :=
  OCRConfig.mk [lit "images"] [lit "raw_texts"] [lit "texts"]
            [lit ".png"; lit ".jpg"] true false false.

(** The export of the scenario of the specification. *)
Definition export : list N :=
  lit "meta1" ++ [LF] ++ lit "meta2" ++ [LF] ++ lit "Hello world" ++ [LF].

Definition ocr (img : list byte) : list byte :=
  default [] (Utf8.encode export).

Definition world (files : list (path * list byte)) (fl : list (option error))
    (ck : list Z) : World :=
  mkWorld (list_to_map files) ∅ 0 ocr
          (fun _ => lit "2024-01-01 00:00:00") true true fl ck [].

Definition a_png : path := [lit "images"; lit "a.png"].
Definition raw_a : path := [lit "raw_texts"; lit "a.txt"].
Definition txt_a : path := [lit "texts"; lit "a.txt"].

(** One image whose two artifacts exist already. *)
Definition processed_before : World :=
  world [(a_png, b "A"); (raw_a, b "Hello world" ++ [x0a]);
         (txt_a, b "Hello world")]
        [] [1700000000%Z].

Definition x_txt : path := [lit "texts"; lit "x.txt"].
Definition y_txt : path := [lit "texts"; lit "y.txt"].

(** The two text files of the scenario of the specification. *)
Definition two_texts : World :=
  world [(x_txt, b "foo"); (y_txt, [])] [] [1700000000%Z; 1700000000%Z].

Definition old_combined : path :=
  [lit "texts"; lit "combined_all_1700000000.txt"].


Definition disk_error : error := OtherError (lit "[Errno 13] Permission denied").

(** A raw text without its clean text, in a directory where opening the
    clean file for writing fails both times it is tried. *)
Definition clean_dir_locked : World :=
  world [(a_png, b "A"); (raw_a, b "Hello world" ++ [x0a])]
        [None; None; Some disk_error; None; Some disk_error] [].

(** The same, the failure being gone at the second try. *)
Definition clean_dir_locked_once : World :=
  world [(a_png, b "A"); (raw_a, b "Hello world" ++ [x0a])]
        [None; None; Some disk_error] [].



Definition a_jpg : path := [lit "images"; lit "a.jpg"].

(** Two images with the same stem. *)
Definition same_stem : World :=
  world [(a_png, b "A"); (a_jpg, b "B")] [] [].

Definition b_jpg : path := [lit "images"; lit "b.jpg"].

(** Two images; the service fails on the upload of the second one (the
    first image takes eleven fallible calls, the upload of the second is
    the third call after them). *)
Definition second_upload_fails : World :=
  world [(a_png, b "A"); (b_jpg, b "B")]
        (repeat None 13 ++ [Some (HttpError (lit "HttpError 500"))])
        [1700000000%Z].

End Sample.

(** ** Vocabulary of the further properties *)

(** [yields V m]: every value [m] returns satisfies [V]. *)
Definition yields {A} (V : A -> Prop) (m : M A) : Prop :=
  forall w a w', m w = (Return a, w') -> V a.

(** The message [extract_text_from_image] reports for the exception [e]
    (lines 165 and 169). *)
Definition failure_message (image_path : path) (e : error) : text :=
  match e with
  | HttpError m =>
      lit "Google API error processing " ++ PyPath.name image_path
      ++ lit ": " ++ m
  | OtherError m =>
      lit "Error processing " ++ PyPath.name image_path ++ lit ": " ++ m
  end.


(** The remote side of the world is the same in [w'] as in [w]. *)
Definition remote_same (w w' : World) : Prop :=
  drive w' = drive w /\ next_id w' = next_id w /\ trace w' = trace w
  /\ recognise w' = recognise w.

(** Nothing but the schedule of failures and the clock has moved. *)
Definition unchanged (w w' : World) : Prop :=
  fs w' = fs w /\ remote_same w w'.

(** The [try] block of [extract_text_from_image], without its handlers. *)
Definition image_steps (config : OCRConfig.t) (image_path : path)
  : M (bool * option text) :=
  let imgname := PyPath.name image_path in
  let name_without_ext := PyPath.stem image_path in
  let raw_txtfile :=
    OCRProcessor.artifact (OCRProcessor.raw_texts_dir config) name_without_ext in
  let txtfile :=
    OCRProcessor.artifact (OCRProcessor.texts_dir config) name_without_ext in
  (txt_there <- path_exists txtfile ;;
   raw_there <- path_exists raw_txtfile ;;
   if txt_there && raw_there then ret (true, None)
   else
     file_id <- upload image_path imgname ;;
     exported <- export_media file_id ;;
     match Utf8.decode exported with
     | None => raise (OtherError (lit "'utf-8' codec can't decode"))
     | Some content =>
         let cleaned_content := strip_metadata content in
         open_write raw_txtfile ;;;
         write_text raw_txtfile cleaned_content ;;;
         delete_file file_id ;;;
         TextProcessor.clean_text_file raw_txtfile txtfile ;;;
         ret (true, None)
     end)%io.

(** The document that the upload of [image_path] in [w] creates. *)
Definition uploaded (w : World) (image_path : path) : gmap N (list byte) :=
  <[next_id w := recognise w (content_in w image_path)]> (drive w).

(** ** Further sample inputs *)

Module Scenario.

(** One new image, and a service that answers every request. *)
Definition one_image : World :=
  Sample.world [(Sample.a_png, Sample.b "A")] [] [].

(** One new image, and a service whose deletion request fails: the six
    steps before it (three of the upload, the export, opening and
    writing the raw file) go through. *)
Definition delete_fails : World :=
  Sample.world [(Sample.a_png, Sample.b "A")]
    (repeat None 6 ++ [Some (HttpError (lit "HttpError 500"))]) [].

End Scenario.

(** ** The document of a combination with headers *)




(** What [_write_file_content] writes for [txt_file] as it is in [w]:
    the stripped text, a placeholder for a blank file, or the message of
    the decoding error. *)
Definition file_body (w : World) (txt_file : path) : text :=
  match Utf8.decode (content_in w txt_file) with
  | Some s =>
      match PyStr.strip (universal_newlines s) with
      | [] => lit "[No content or empty file]"
      | content => content
      end ++ [LF]
  | None =>
      lit "[Error reading file: " ++ lit "'utf-8' codec can't decode"
      ++ lit "]" ++ [LF]
  end.




(** ** Reading the summary *)

(** A console line: the message between its colour and the reset code. *)
Definition painted (colors : OCRLogger.Colors) (color message : text) : text :=
  color ++ message ++ OCRLogger.RESET colors.

(** The lines of the failure block of the summary. *)
Definition failure_block (colors : OCRLogger.Colors) (failed : nat)
    (shown : list text) : list text :=
  painted colors (OCRLogger.RED colors)
    (lit "Failed to process: " ++ PyStr.of_nat failed ++ lit " files")
  :: painted colors (OCRLogger.RED colors) (lit "Error details:")
  :: map (fun e => painted colors (OCRLogger.RED colors) (lit "  - " ++ e))
         shown.

Module Report.

(** Colour codes standing for those of [config.Colors]. *)
Definition tags : OCRLogger.Colors :=
  OCRLogger.mkColors (lit "<white>") (lit "<green>") (lit "<yellow>")
                     (lit "<red>") (lit "<bold>") (lit "<cyan>") (lit "<reset>").

(** The result of the run of [Sample.second_upload_fails]. *)
Definition one_of_two : ProcessingResult :=
  mkResult 2 1 1 [lit "Google API error processing b.jpg: HttpError 500"]
           [Sample.a_png].

(** A result with seven failures. *)
Definition seven_failures : ProcessingResult :=
  mkResult 7 0 7 [lit "e1"; lit "e2"; lit "e3"; lit "e4"; lit "e5"; lit "e6";
                  lit "e7"] [].

End Report.

(** The documents on the drive are the same in [w'] as in [w]. *)
Definition drive_same (w w' : World) : Prop := drive w' = drive w.

(** * Properties *)

(** ** Sanity checks of the codec *)

Example utf8_roundtrip_sample :
  Utf8.decode (default [] (Utf8.encode [72; 233; 8364; 128512; 10]))
  = Some [72; 233; 8364; 128512; 10]
  /\ Utf8.encode [8364] = Some [xe2; x82; xac]
  /\ Utf8.encode [0xD800] = None
  /\ Utf8.decode [xc0; x80] = None
  /\ Utf8.decode [xed; xa0; x80] = None
  /\ universal_newlines [97; 13; 10; 98; 13; 99; 10] = [97; 10; 98; 10; 99; 10].
Proof. vm_compute. repeat split. Qed.


(** ** Splitting and joining *)

Section split_join.

Lemma split_not_nil sep s : PyStr.split sep s <> [].
Proof.
  destruct s as [|c s]; simpl; [done|].
  destruct (c =? sep); [done|]. by destruct (PyStr.split sep s).
Qed.

Lemma join_cons {A} (sep p : list A) ps :
  ps <> [] -> PyStr.join sep (p :: ps) = p ++ sep ++ PyStr.join sep ps.
Proof. by destruct ps. Qed.

Lemma join_split sep s : PyStr.join [sep] (PyStr.split sep s) = s.
Proof.
  induction s as [|c s IH]; simpl; [done|].
  destruct (N.eqb_spec c sep) as [->|Hne].
  - rewrite join_cons by apply split_not_nil. simpl. by rewrite IH.
  - pose proof (split_not_nil sep s) as Hnil.
    destruct (PyStr.split sep s) as [|l ls]; [done|].
    destruct ls as [|l' ls].
    + simpl in *. by rewrite IH.
    + rewrite join_cons in IH by done. rewrite join_cons by done.
      by rewrite <- IH.
Qed.

Lemma split_pieces_free sep s :
  Forall (fun l => sep ∉ l) (PyStr.split sep s).
Proof.
  induction s as [|c s IH]; simpl.
  - repeat constructor. apply not_elem_of_nil.
  - destruct (N.eqb_spec c sep) as [->|Hne].
    + constructor; [apply not_elem_of_nil|done].
    + destruct (PyStr.split sep s) as [|l ls]; inversion IH; subst.
      * repeat constructor. by intros ->%list_elem_of_singleton.
      * constructor; [|done]. rewrite not_elem_of_cons. split; [congruence|done].
Qed.

End split_join.

(** C3. Metadata stripping: with at most two lines the text is returned
    as it is; with more, the result is the lines after the first two
    joined by LF, that is, the text after its second line break. *)
Theorem strip_metadata_spec (content : list N) :
  let lines := PyStr.split LF content in
  (length lines <= 2 -> strip_metadata content = content)%nat /\
  (2 < length lines ->
     strip_metadata content = PyStr.join [LF] (drop 2 lines) /\
     exists l1 l2,
       (LF ∉ l1) /\ (LF ∉ l2) /\ lines = l1 :: l2 :: drop 2 lines /\
       content = l1 ++ [LF] ++ l2 ++ [LF] ++ strip_metadata content)%nat.
Proof.
  intros lines. unfold strip_metadata. fold lines. split; intros Hlen.
  - destruct (Nat.ltb_spec 2 (length lines)); [lia|done].
  - destruct (Nat.ltb_spec 2 (length lines)); [|lia].
    split; [done|].
    pose proof (split_pieces_free LF content) as Hfree.
    pose proof (join_split LF content) as Hjoin.
    fold lines in Hfree, Hjoin.
    destruct lines as [|l1 [|l2 [|l3 rest]]]; simpl in Hlen; try lia.
    exists l1, l2. inversion Hfree as [|? ? H1 Hfree']; subst.
    inversion Hfree' as [|? ? H2 _]; subst.
    repeat split; done.
Qed.

Lemma strip_metadata_spec_witness :
  strip_metadata (lit "one line") = lit "one line" /\
  strip_metadata Sample.export
  = PyStr.join [LF] (drop 2 (PyStr.split LF Sample.export)).
Proof.
  split.
  - apply (proj1 (strip_metadata_spec (lit "one line"))).
    vm_compute. repeat constructor.
  - apply (proj2 (strip_metadata_spec Sample.export)).
    vm_compute. repeat constructor.
Defined.

Example strip_metadata_scenario :
  strip_metadata Sample.export = lit "Hello world" ++ [LF]
  /\ strip_metadata (lit "a" ++ [LF] ++ lit "b") = lit "a" ++ [LF] ++ lit "b"
  /\ strip_metadata (lit "a" ++ [LF] ++ lit "b" ++ [LF]) = [].
Proof. by vm_compute. Qed.

(** ** Whitespace normalisation *)

Section cleaning.

Lemma split_scan_words w s :
  nonblank w -> Forall is_word (PyStr.split_scan w s).
Proof.
  revert w. induction s as [|c s IH]; intros w Hw; simpl.
  - destruct w; simpl; [constructor|]. constructor; [done|constructor].
  - destruct (PyStr.isspace c) eqn:Hc.
    + destruct w; simpl; [by apply IH, Forall_nil|].
      constructor; [done|]. by apply IH, Forall_nil.
    + apply IH. apply Forall_app. split; [done|]. by repeat constructor.
Qed.

Lemma split_scan_app u w s :
  nonblank u -> PyStr.split_scan w (u ++ s) = PyStr.split_scan (w ++ u) s.
Proof.
  revert w. induction u as [|c u IH]; intros w Hu; simpl.
  - by rewrite app_nil_r.
  - inversion Hu as [|? ? Hc Hu']; subst. rewrite Hc.
    rewrite IH by done. by rewrite <- app_assoc.
Qed.

Lemma split_scan_space w s :
  PyStr.split_scan w (SP :: s) = PyStr.emit w (PyStr.split_scan [] s).
Proof. done. Qed.

Lemma split_ws_join ws :
  Forall is_word ws -> PyStr.split_ws (PyStr.join [SP] ws) = ws.
Proof.
  unfold PyStr.split_ws.
  induction ws as [|u ws IH]; intros Hws; [done|].
  inversion Hws as [|? ? [Hne Hu] Hws']; subst.
  destruct ws as [|v ws].
  - simpl. rewrite <- (app_nil_r u) at 1. rewrite split_scan_app by done.
    simpl. by destruct u.
  - rewrite join_cons by done. rewrite split_scan_app by done.
    change ([SP] ++ PyStr.join [SP] (v :: ws))
      with (SP :: PyStr.join [SP] (v :: ws)).
    rewrite split_scan_space, IH by done. by destruct u.
Qed.

Lemma replace_absent old new s :
  old ∉ s -> PyStr.replace old new s = s.
Proof.
  induction s as [|c s IH]; intros Hs; simpl; [done|].
  apply not_elem_of_cons in Hs as [Hc Hs].
  destruct (N.eqb_spec c old); [congruence|]. by rewrite IH.
Qed.

(** In a join of words every blank is one of the separating spaces. *)
Lemma join_words_blanks ws :
  Forall is_word ws ->
  Forall (fun c => PyStr.isspace c = true -> c = SP) (PyStr.join [SP] ws).
Proof.
  induction ws as [|u ws IH]; intros Hws; [constructor|].
  inversion Hws as [|? ? [_ Hu] Hws']; subst.
  assert (Forall (fun c => PyStr.isspace c = true -> c = SP) u) as Hu'.
  { eapply Forall_impl; [exact Hu|]. simpl. congruence. }
  destruct ws as [|v ws]; [done|].
  rewrite join_cons by done. apply Forall_app. split; [done|].
  apply Forall_app. split; [by repeat constructor|by apply IH].
Qed.

Lemma join_words_head ws c :
  Forall is_word ws -> head (PyStr.join [SP] ws) = Some c ->
  PyStr.isspace c = false.
Proof.
  intros Hws. destruct ws as [|u ws]; [done|].
  inversion Hws as [|? ? [Hne Hu] _]; subst.
  destruct u as [|d u]; [done|]. inversion Hu; subst.
  destruct ws; simpl; congruence.
Qed.

Lemma join_words_last ws c :
  Forall is_word ws -> last (PyStr.join [SP] ws) = Some c ->
  PyStr.isspace c = false.
Proof.
  induction ws as [|u ws IH]; intros Hws; [done|].
  inversion Hws as [|? ? [Hne Hu] Hws']; subst.
  destruct ws as [|v ws].
  - simpl. intros Hl. apply last_Some in Hl as [l' ->].
    apply Forall_app in Hu as [_ Hu]. by inversion Hu.
  - rewrite join_cons by done. intros Hl. apply IH; [done|].
    inversion Hws' as [|? ? [Hv _] _]; subst.
    assert (PyStr.join [SP] (v :: ws) <> []) as Hnil.
    { destruct v; [done|]. by destruct ws. }
    rewrite app_assoc in Hl. rewrite last_app in Hl.
    destruct (last (PyStr.join [SP] (v :: ws))) eqn:E; [done|].
    by apply last_None in E.
Qed.

Lemma adjacent_spaces_cons a b s :
  adjacent_spaces (a :: b :: s)
  = ((a =? SP) && (b =? SP)) || adjacent_spaces (b :: s).
Proof. done. Qed.

Lemma adjacent_spaces_infix l1 l2 :
  adjacent_spaces (l1 ++ SP :: SP :: l2) = true.
Proof.
  induction l1 as [|a l1 IH]; [done|].
  change ((a :: l1) ++ SP :: SP :: l2) with (a :: (l1 ++ SP :: SP :: l2)).
  destruct (l1 ++ SP :: SP :: l2) as [|b t] eqn:E; [by destruct l1|].
  by rewrite adjacent_spaces_cons, IH, orb_true_r.
Qed.

Lemma isspace_SP : PyStr.isspace SP = true.
Proof. done. Qed.

Lemma nonblank_not_SP c : PyStr.isspace c = false -> (c =? SP) = false.
Proof.
  intros Hc. destruct (N.eqb_spec c SP) as [->|]; [|done].
  by rewrite isspace_SP in Hc.
Qed.

Lemma adjacent_spaces_word u r :
  nonblank u -> (forall c, head r = Some c -> c <> SP) ->
  adjacent_spaces (u ++ SP :: r) = adjacent_spaces r.
Proof.
  intros Hu Hr. induction Hu as [|c u Hc Hu IH].
  - destruct r as [|d r]; [done|].
    change ([] ++ SP :: d :: r) with (SP :: d :: r).
    rewrite adjacent_spaces_cons.
    specialize (Hr d eq_refl). destruct (N.eqb_spec d SP); [done|].
    by rewrite andb_false_r.
  - change ((c :: u) ++ SP :: r) with (c :: (u ++ SP :: r)).
    destruct (u ++ SP :: r) as [|b t] eqn:E; [by destruct u|].
    by rewrite adjacent_spaces_cons, IH, nonblank_not_SP.
Qed.

Lemma adjacent_spaces_nonblank u : nonblank u -> adjacent_spaces u = false.
Proof.
  induction 1 as [|c u Hc Hu IH]; [done|].
  destruct u as [|d u]; [done|].
  by rewrite adjacent_spaces_cons, IH, nonblank_not_SP.
Qed.

Lemma join_words_no_adjacent ws :
  Forall is_word ws -> adjacent_spaces (PyStr.join [SP] ws) = false.
Proof.
  induction ws as [|u ws IH]; intros Hws; [done|].
  inversion Hws as [|? ? [Hne Hu] Hws']; subst.
  destruct ws as [|v ws].
  - by apply adjacent_spaces_nonblank.
  - rewrite join_cons by done.
    change ([SP] ++ PyStr.join [SP] (v :: ws))
      with (SP :: PyStr.join [SP] (v :: ws)).
    rewrite adjacent_spaces_word; [by apply IH|done|].
    intros c Hc ->. apply join_words_head in Hc; [|done].
    by rewrite isspace_SP in Hc.
Qed.

Lemma head_rev {A} (l : list A) : head (rev l) = last l.
Proof. rewrite rev_alt. apply head_reverse. Qed.

Lemma lstrip_id s :
  (forall c, head s = Some c -> PyStr.isspace c = false) -> PyStr.lstrip s = s.
Proof.
  destruct s as [|c s]; [done|]. intros H. simpl. by rewrite (H c).
Qed.

Lemma strip_id s :
  (forall c, head s = Some c -> PyStr.isspace c = false) ->
  (forall c, last s = Some c -> PyStr.isspace c = false) ->
  PyStr.strip s = s.
Proof.
  intros Hh Hl. unfold PyStr.strip, PyStr.rstrip.
  rewrite (lstrip_id s) by done.
  rewrite lstrip_id; [by rewrite rev_involutive|].
  intros c Hc. apply Hl. by rewrite <- head_rev.
Qed.

End cleaning.

(** C4. Cleaning is idempotent; its output has no LF, no CR, no two
    spaces in a row, and neither starts nor ends with a blank. *)
Theorem clean_text_spec (content : list N) :
  let out := clean_text content in
  clean_text out = out
  /\ (LF ∉ out) /\ (CR ∉ out)
  /\ (forall l1 l2, out <> l1 ++ SP :: SP :: l2)
  /\ PyStr.strip out = out.
Proof.
  intros out. unfold out, clean_text.
  set (ws := PyStr.split_ws (PyStr.replace CR SP (PyStr.replace LF SP content))).
  assert (Forall is_word ws) as Hws.
  { apply split_scan_words. constructor. }
  pose proof (join_words_blanks ws Hws) as Hblank.
  assert (forall c, PyStr.isspace c = true -> c <> SP ->
                    c ∉ PyStr.join [SP] ws) as Hfree.
  { intros c Hc Hne Hin. rewrite Forall_forall in Hblank.
    by apply Hne, Hblank. }
  assert (LF ∉ PyStr.join [SP] ws) as HLF.
  { apply Hfree; [reflexivity|discriminate]. }
  assert (CR ∉ PyStr.join [SP] ws) as HCR.
  { apply Hfree; [reflexivity|discriminate]. }
  repeat split; try done.
  - rewrite (replace_absent LF) by done. rewrite (replace_absent CR) by done.
    by rewrite split_ws_join.
  - intros l1 l2 E. pose proof (join_words_no_adjacent ws Hws) as Hadj.
    rewrite E, adjacent_spaces_infix in Hadj. done.
  - apply strip_id; intros c Hc.
    + by eapply join_words_head.
    + by eapply join_words_last.
Qed.

Example clean_text_scenario :
  clean_text (lit "Hello world" ++ [LF]) = lit "Hello world"
  /\ clean_text ([SP; 9] ++ lit "a" ++ [CR; LF; 12288] ++ lit "b " ++ [160])
     = lit "a b".
Proof. by vm_compute. Qed.

(** ** Reasoning about effects *)

Section effects.
Context (R : relation World) `{!PreOrder R}.
(** Where the computation may write and what it may log. *)
Context (writable : path -> Prop) (loggable : Event -> Prop).
Hypothesis R_faults : forall w f, R w (with_faults f w).
Hypothesis R_clock : forall w c, R w (with_clock c w).
Hypothesis R_drive : forall w d n, R w (with_drive d n w).
Hypothesis R_write :
  forall w p b, writable p -> R w (with_fs (<[p := b]> (fs w)) w).
Hypothesis R_log : forall w e, loggable e -> R w (log_event e w).

Lemma ok_ret {A} (a : A) : ok R (ret a).
Proof. intros w. split; [reflexivity|exact I]. Qed.

Lemma ok_raise {A} e : ok R (@raise A e).
Proof. intros w. split; [reflexivity|exact I]. Qed.

Lemma ok_get {A} (f : World -> A) : ok R (get f).
Proof. intros w. split; [reflexivity|exact I]. Qed.

Lemma ok_bind {A B} (m : M A) (k : A -> M B) :
  ok R m -> (forall a, ok R (k a)) -> ok R (bind m k).
Proof.
  intros Hm Hk w. unfold bind. destruct (Hm w) as [HR Hne].
  destruct (m w) as [[a|e] w1]; simpl in *.
  - destruct (Hk a w1) as [HR' Hne']. split; [|done]. by etrans.
  - done.
Qed.

Lemma ok_try_except {A} (m : M A) (h : error -> M A) :
  ok R m -> (forall e, ok R (h e)) -> ok R (try_except m h).
Proof.
  intros Hm Hh w. unfold try_except. destruct (Hm w) as [HR Hne].
  destruct (m w) as [[a|[e|c]] w1]; simpl in *; try done.
  destruct (Hh e w1) as [HR' Hne']. split; [|done]. by etrans.
Qed.

Lemma ok_fault : ok R fault.
Proof.
  intros w. unfold fault.
  destruct (faults w) as [|[e|] rest]; simpl;
    (split; [first [reflexivity|apply R_faults]|exact I]).
Qed.

Lemma ok_time_now : ok R time_now.
Proof.
  intros w. unfold time_now.
  destruct (clock w); simpl;
    (split; [first [reflexivity|apply R_clock]|exact I]).
Qed.

Lemma ok_path_exists p : ok R (path_exists p).
Proof. apply ok_get. Qed.

Lemma ok_open_read p : ok R (open_read p).
Proof.
  apply ok_bind; [apply ok_fault|intros _].
  apply ok_bind; [apply ok_get|intros [b|]]; [apply ok_ret|apply ok_raise].
Qed.

Lemma ok_read_bytes p : ok R (read_bytes p).
Proof. apply ok_bind; [apply ok_fault|intros _; apply ok_get]. Qed.

Lemma ok_read_text p : ok R (read_text p).
Proof.
  apply ok_bind; [apply ok_read_bytes|intros b].
  destruct (Utf8.decode b); [apply ok_ret|apply ok_raise].
Qed.

Lemma ok_open_write p : writable p -> ok R (open_write p).
Proof.
  intros Hp. apply ok_bind; [apply ok_fault|intros _].
  intros w. split; [by apply R_write|exact I].
Qed.

Lemma ok_write_bytes p data : writable p -> ok R (write_bytes p data).
Proof.
  intros Hp. apply ok_bind; [apply ok_fault|intros _].
  intros w. split; [by apply R_write|exact I].
Qed.

Lemma ok_write_text p s : writable p -> ok R (write_text p s).
Proof.
  intros Hp. unfold write_text.
  destruct (Utf8.encode s); [by apply ok_write_bytes|apply ok_raise].
Qed.

Lemma ok_upload image_path imgname :
  (forall id, loggable (EvUpload imgname id)) -> ok R (upload image_path imgname).
Proof.
  intros Hl. apply ok_bind; [apply ok_open_read|intros _].
  apply ok_bind; [apply ok_read_bytes|intros img].
  apply ok_bind; [apply ok_fault|intros _].
  intros w. split; [|exact I]. simpl.
  etrans; [apply (R_drive w)|]. by apply (R_log (with_drive _ _ w)).
Qed.

Lemma ok_export_media id :
  loggable (EvExport id) -> ok R (export_media id).
Proof.
  intros Hl. apply ok_bind; [apply ok_fault|intros _].
  apply ok_bind; [intros w; split; [by apply R_log|exact I]|intros _].
  apply ok_bind; [apply ok_get|intros [b|]]; [apply ok_ret|apply ok_raise].
Qed.

Lemma ok_delete_file id :
  loggable (EvDelete id) -> ok R (delete_file id).
Proof.
  intros Hl. apply ok_bind; [apply ok_fault|intros _].
  intros w. split; [|exact I]. simpl.
  etrans; [apply (R_drive w)|]. by apply (R_log (with_drive _ _ w)).
Qed.

Ltac ok_step :=
  lazymatch goal with
  | |- ok _ (bind _ _) => apply ok_bind; [|intros ?]
  | |- ok _ (try_except _ _) => apply ok_try_except; [|intros ?]
  | |- ok _ (ret _) => apply ok_ret
  | |- ok _ (raise _) => apply ok_raise
  | |- ok _ (get _) => apply ok_get
  | |- ok _ fault => apply ok_fault
  | |- ok _ time_now => apply ok_time_now
  | |- ok _ (path_exists _) => apply ok_path_exists
  | |- ok _ (open_read _) => apply ok_open_read
  | |- ok _ (read_bytes _) => apply ok_read_bytes
  | |- ok _ (read_text _) => apply ok_read_text
  | |- ok _ (open_write _) => apply ok_open_write
  | |- ok _ (write_bytes _ _) => apply ok_write_bytes
  | |- ok _ (write_text _ _) => apply ok_write_text
  | |- ok _ (upload _ _) => apply ok_upload
  | |- ok _ (export_media _) => apply ok_export_media
  | |- ok _ (delete_file _) => apply ok_delete_file
  | |- ok _ (match ?x with _ => _ end) => destruct x
  end.

Ltac ok_auto := repeat ok_step; eauto.

(** *** The text processor *)

Lemma ok_clean_attempt raw_file clean_file :
  writable clean_file ->
  ok R (TextProcessor.clean_attempt raw_file clean_file).
Proof. intros Hw. unfold TextProcessor.clean_attempt. ok_auto. Qed.

Lemma ok_copy_raw raw_file clean_file :
  writable clean_file ->
  ok R (TextProcessor.copy_raw raw_file clean_file).
Proof. intros Hw. unfold TextProcessor.copy_raw. ok_auto. Qed.

Lemma ok_clean_text_file raw_file clean_file :
  writable clean_file ->
  ok R (TextProcessor.clean_text_file raw_file clean_file).
Proof.
  intros Hw. unfold TextProcessor.clean_text_file.
  apply ok_try_except; [by apply ok_clean_attempt|intros _].
  apply ok_try_except; [by apply ok_copy_raw|intros _; apply ok_ret].
Qed.

Lemma ok_get_combinable_files text_dir :
  ok R (TextProcessor._get_combinable_files text_dir).
Proof.
  unfold TextProcessor._get_combinable_files, TextProcessor.glob_txt. ok_auto.
Qed.

Lemma ok_copy_files out n i files :
  writable out -> ok R (TextProcessor.copy_files out n i files).
Proof.
  intros Hw. revert i. induction files as [|f files IH]; intros i; simpl.
  - ok_auto.
  - repeat ok_step; eauto.
Qed.

Lemma ok_write_combined_file_header out file_prefix n :
  writable out ->
  ok R (TextProcessor._write_combined_file_header out file_prefix n).
Proof. intros Hw. unfold TextProcessor._write_combined_file_header. ok_auto. Qed.

Lemma ok_write_file_separator out i filename :
  writable out -> ok R (TextProcessor._write_file_separator out i filename).
Proof. intros Hw. unfold TextProcessor._write_file_separator. ok_auto. Qed.

Lemma ok_write_file_content out txt_file :
  writable out -> ok R (TextProcessor._write_file_content out txt_file).
Proof. intros Hw. unfold TextProcessor._write_file_content. ok_auto. Qed.

Lemma ok_write_files out n i files :
  writable out -> ok R (TextProcessor.write_files out n i files).
Proof.
  intros Hw. revert i. induction files as [|f files IH]; intros i; simpl.
  - ok_auto.
  - apply ok_bind; [by apply ok_write_file_separator|intros _].
    apply ok_bind; [by apply ok_write_file_content|intros _].
    ok_auto.
Qed.

Lemma name_child dir n : PyPath.name (PyPath.child dir n) = n.
Proof. unfold PyPath.name, PyPath.child. apply last_last. Qed.

Lemma combined_name_child dir rest :
  combined_name (PyPath.child dir (lit "combined_" ++ rest)).
Proof. unfold combined_name. by rewrite name_child. Qed.

Hypothesis combined_writable : forall p, combined_name p -> writable p.

Lemma ok_combine_texts config output_dir :
  ok R (TextProcessor.combine_texts config output_dir).
Proof.
  unfold TextProcessor.combine_texts.
  apply ok_try_except; [|intros; apply ok_ret].
  destruct (TextProcessor._get_text_directory config output_dir) as [d|];
    [|apply ok_ret].
  apply ok_bind; [apply ok_get_combinable_files|intros txt_files].
  destruct txt_files as [|f fs']; [apply ok_ret|].
  apply ok_bind; [apply ok_time_now|intros ts].
  assert (writable (PyPath.child d
            (lit "combined_all_" ++ PyStr.of_int ts ++ lit ".txt"))) as Hw.
  { apply combined_writable, (combined_name_child d (lit "all_" ++ _)). }
  apply ok_bind; [by apply ok_open_write|intros _].
  apply ok_bind; [by apply ok_copy_files|intros _]. apply ok_ret.
Qed.

Lemma ok_combine_texts_with_headers config output_dir :
  ok R (TextProcessor.combine_texts_with_headers config output_dir).
Proof.
  unfold TextProcessor.combine_texts_with_headers.
  apply ok_try_except; [|intros; apply ok_ret].
  destruct (TextProcessor._get_text_directory config output_dir) as [d|];
    [|apply ok_ret].
  apply ok_bind; [apply ok_get_combinable_files|intros txt_files].
  destruct txt_files as [|f fs']; [apply ok_ret|].
  apply ok_bind; [apply ok_time_now|intros ts].
  set (file_prefix := if bool_decide (output_dir = lit "texts")
                      then lit "cleaned" else lit "raw").
  assert (writable (PyPath.child d
            (lit "combined_" ++ file_prefix ++ lit "_"
             ++ PyStr.of_int ts ++ lit ".txt"))) as Hw.
  { apply combined_writable, combined_name_child. }
  apply ok_bind; [by apply ok_open_write|intros _].
  apply ok_bind; [by apply ok_write_combined_file_header|intros _].
  apply ok_bind; [by apply ok_write_files|intros _]. apply ok_ret.
Qed.

(** *** The per-file step of the batch *)

Hypothesis remote_loggable : forall e, e <> EvHandleCombination -> loggable e.

Lemma ok_extract_text_from_image config image_path :
  writable (OCRProcessor.artifact (OCRProcessor.raw_texts_dir config)
                                  (PyPath.stem image_path)) ->
  writable (OCRProcessor.artifact (OCRProcessor.texts_dir config)
                                  (PyPath.stem image_path)) ->
  ok R (OCRProcessor.extract_text_from_image config image_path).
Proof.
  intros Hraw Htxt. unfold OCRProcessor.extract_text_from_image.
  apply ok_try_except; [|intros []; apply ok_ret].
  repeat ok_step; eauto using ok_clean_text_file.
Qed.

Lemma ok_process_loop config files t :
  (forall p, p ∈ files ->
     writable (OCRProcessor.artifact (OCRProcessor.raw_texts_dir config)
                                     (PyPath.stem p))
     /\ writable (OCRProcessor.artifact (OCRProcessor.texts_dir config)
                                        (PyPath.stem p))) ->
  ok R (OCRProcessor.process_loop config files t).
Proof.
  revert t. induction files as [|f files IH]; intros t Hw; simpl.
  - apply ok_ret.
  - apply ok_bind; [|intros r].
    + apply ok_extract_text_from_image; apply Hw; by left.
    + apply IH. intros p Hp. apply Hw. by right.
Qed.

Lemma ok_combinations config :
  ok R ((if OCRConfig.combine_texts config then
           if OCRConfig.include_headers config
           then TextProcessor.combine_texts_with_headers config (lit "texts") ;;; ret tt
           else TextProcessor.combine_texts config (lit "texts") ;;; ret tt
         else ret tt) ;;;
        (if OCRConfig.combine_raw config then
           if OCRConfig.include_headers config
           then TextProcessor.combine_texts_with_headers config (lit "raw_texts") ;;; ret tt
           else TextProcessor.combine_texts config (lit "raw_texts") ;;; ret tt
         else ret tt))%io.
Proof.
  assert (forall d, ok R (TextProcessor.combine_texts config d ;;; ret tt)%io)
    as H1.
  { intros d. apply ok_bind; [apply ok_combine_texts|intros; apply ok_ret]. }
  assert (forall d,
    ok R (TextProcessor.combine_texts_with_headers config d ;;; ret tt)%io)
    as H2.
  { intros d. apply ok_bind;
      [apply ok_combine_texts_with_headers|intros; apply ok_ret]. }
  apply ok_bind; [|intros _].
  - destruct (OCRConfig.combine_texts config), (OCRConfig.include_headers config);
      auto using ok_ret.
  - destruct (OCRConfig.combine_raw config), (OCRConfig.include_headers config);
      auto using ok_ret.
Qed.

Lemma ok_handle_text_combination config :
  loggable EvHandleCombination ->
  ok R (OCRProcessor._handle_text_combination config).
Proof.
  intros Hl. unfold OCRProcessor._handle_text_combination.
  apply ok_bind; [|intros _; apply ok_combinations].
  intros w. split; [by apply R_log|exact I].
Qed.

End effects.

(** ** Computations that always return *)

Lemma returns_try_except {A} (m : M A) (h : error -> M A) :
  (forall w, no_exit (fst (try_except m h w))) -> (forall e, returns (h e)) ->
  returns (try_except m h).
Proof.
  intros Hm Hh w. specialize (Hm w). unfold try_except in *.
  destruct (m w) as [[a|[e|c]] w1]; simpl in *; [by eauto|apply Hh|done].
Qed.

Lemma returns_ret {A} (a : A) : returns (ret a).
Proof. intros w. by eexists _, _. Qed.

Lemma returns_bind {A B} (m : M A) (k : A -> M B) :
  returns m -> (forall a, returns (k a)) -> returns (bind m k).
Proof.
  intros Hm Hk w. unfold bind. destruct (Hm w) as (a & w1 & ->). apply Hk.
Qed.

#[local] Instance any_world_preorder : PreOrder any_world.
Proof. by split. Qed.

Lemma extract_text_from_image_no_exit config image_path w :
  no_exit (fst (OCRProcessor.extract_text_from_image config image_path w)).
Proof.
  by apply (ok_extract_text_from_image any_world
              (fun _ => True) (fun _ => True)).
Qed.

Lemma extract_text_from_image_returns config image_path :
  returns (OCRProcessor.extract_text_from_image config image_path).
Proof.
  apply returns_try_except.
  - apply extract_text_from_image_no_exit.
  - intros []; apply returns_ret.
Qed.

Lemma combine_texts_returns config output_dir :
  returns (TextProcessor.combine_texts config output_dir).
Proof.
  apply returns_try_except; [|intros; apply returns_ret].
  intros w. by apply (ok_combine_texts any_world (fun _ => True)).
Qed.

Lemma combine_texts_with_headers_returns config output_dir :
  returns (TextProcessor.combine_texts_with_headers config output_dir).
Proof.
  apply returns_try_except; [|intros; apply returns_ret].
  intros w. by apply (ok_combine_texts_with_headers any_world (fun _ => True)).
Qed.

Lemma handle_text_combination_returns config :
  returns (OCRProcessor._handle_text_combination config).
Proof.
  unfold OCRProcessor._handle_text_combination.
  apply returns_bind; [intros w; by eexists _, _|intros _].
  apply returns_bind; [|intros _].
  - destruct (OCRConfig.combine_texts config); [|apply returns_ret].
    destruct (OCRConfig.include_headers config);
      (apply returns_bind; [|intros; apply returns_ret]);
      [apply combine_texts_with_headers_returns|apply combine_texts_returns].
  - destruct (OCRConfig.combine_raw config); [|apply returns_ret].
    destruct (OCRConfig.include_headers config);
      (apply returns_bind; [|intros; apply returns_ret]);
      [apply combine_texts_with_headers_returns|apply combine_texts_returns].
Qed.

(** ** Discovery reads the files and nothing else *)

Lemma reads_fs_ret {A} (a : A) : reads_fs (ret a).
Proof. intros w. by exists a. Qed.

Lemma reads_fs_bind {A B} (m : M A) (k : A -> M B) :
  reads_fs m -> (forall a, reads_fs (k a)) -> reads_fs (bind m k).
Proof.
  intros Hm Hk w. destruct (Hm w) as (a & Ea & Ha).
  destruct (Hk a w) as (b & Eb & Hb). exists b. unfold bind. split.
  - by rewrite Ea.
  - intros w2 E2. rewrite (Ha w2 E2). by apply Hb.
Qed.

Lemma reads_fs_rglob config suffix : reads_fs (OCRProcessor.rglob config suffix).
Proof.
  intros w. eexists. split; [done|]. intros w2 E.
  unfold OCRProcessor.rglob, get. by rewrite E.
Qed.

Lemma reads_fs_collect config exts :
  reads_fs (OCRProcessor.collect_image_files config exts).
Proof.
  induction exts as [|ext exts IH]; simpl; [apply reads_fs_ret|].
  repeat (apply reads_fs_bind; [first [apply reads_fs_rglob|apply IH]|intros ?]).
  apply reads_fs_ret.
Qed.

Lemma reads_fs_get_image_files config :
  reads_fs (OCRProcessor.get_image_files config).
Proof.
  apply reads_fs_bind; [apply reads_fs_collect|intros l].
  destruct l; apply reads_fs_ret.
Qed.

Lemma get_image_files_run config w :
  OCRProcessor.get_image_files config w = (Return (discovered config w), w).
Proof.
  unfold discovered.
  destruct (reads_fs_get_image_files config w) as (l & -> & _). done.
Qed.

Lemma discovered_fs config w w2 :
  fs w2 = fs w -> discovered config w2 = discovered config w.
Proof.
  intros E. unfold discovered.
  destruct (reads_fs_get_image_files config w) as (l & E1 & H).
  by rewrite (H w2 E), E1.
Qed.

(** ** The shape of a batch run *)

Lemma process_loop_returns config files t :
  returns (OCRProcessor.process_loop config files t).
Proof.
  revert t. induction files as [|f files IH]; intros t; simpl.
  - apply returns_ret.
  - apply returns_bind; [apply extract_text_from_image_returns|intros r].
    apply IH.
Qed.

Lemma process_all_images_run config w o w' :
  OCRProcessor.process_all_images config w = (o, w') ->
  batch_run config w o w'.
Proof.
  unfold OCRProcessor.process_all_images, bind, get.
  set (w1 := if service w then w else with_service true w).
  assert (fs w1 = fs w) as Hfs by (unfold w1; by destruct (service w)).
  destruct (service w || auth_ok w) eqn:Hs.
  - assert ((if service w then ret tt else OCRProcessor.initialize_service) w
            = (Return tt, w1)) as ->.
    { unfold w1, OCRProcessor.initialize_service, ret.
      destruct (service w); [done|]. simpl in Hs. by rewrite Hs. }
    rewrite get_image_files_run, (discovered_fs config w w1) by done.
    destruct (discovered config w) as [|f files] eqn:Hd.
    + intros [= <- <-]. by apply run_empty.
    + rewrite <- Hd.
      destruct (process_loop_returns config (discovered config w)
                  empty_tally w1) as (t & w2 & Hloop).
      fold empty_tally. rewrite Hloop.
      destruct (0 <? OCRProcessor.t_successful t)%nat eqn:Hpos.
      * destruct (handle_text_combination_returns config w2)
          as ([] & w3 & Hcomb).
        rewrite Hcomb. intros [= <- <-].
        eapply (run_loop config w w1 t w2 w3); try done; [congruence|].
        by rewrite Hpos.
      * intros [= <- <-].
        eapply (run_loop config w w1 t w2 w2); try done; [congruence|].
        by rewrite Hpos.
  - apply orb_false_iff in Hs as [Hs Ha].
    unfold OCRProcessor.initialize_service. rewrite Hs, Ha.
    intros [= <- <-]. by apply run_exit.
Qed.

Local Open Scope nat_scope.
(** ** The counters of a run *)

Lemma record_outcome_counts image_path r t :
  let t' := OCRProcessor.record_outcome image_path r t in
  OCRProcessor.t_successful t' + OCRProcessor.t_failed t'
  = S (OCRProcessor.t_successful t + OCRProcessor.t_failed t)
  /\ (length (OCRProcessor.t_processed_files t) = OCRProcessor.t_successful t ->
      length (OCRProcessor.t_processed_files t') = OCRProcessor.t_successful t')
  /\ (length (OCRProcessor.t_errors t) <= OCRProcessor.t_failed t ->
      length (OCRProcessor.t_errors t') <= OCRProcessor.t_failed t').
Proof.
  destruct r as [[] msg]; simpl.
  - rewrite length_app. simpl. lia.
  - destruct msg as [[|c m]|]; simpl; rewrite ?length_app; simpl; lia.
Qed.

Lemma process_loop_counts config files t w t' w' :
  OCRProcessor.process_loop config files t w = (Return t', w') ->
  OCRProcessor.t_successful t' + OCRProcessor.t_failed t'
  = OCRProcessor.t_successful t + OCRProcessor.t_failed t + length files
  /\ (length (OCRProcessor.t_processed_files t) = OCRProcessor.t_successful t ->
      length (OCRProcessor.t_processed_files t') = OCRProcessor.t_successful t')
  /\ (length (OCRProcessor.t_errors t) <= OCRProcessor.t_failed t ->
      length (OCRProcessor.t_errors t') <= OCRProcessor.t_failed t').
Proof.
  revert t w. induction files as [|f files IH]; intros t w; simpl.
  - intros [= <- <-]. lia.
  - unfold bind.
    destruct (extract_text_from_image_returns config f w) as (r & w1 & ->).
    intros E. apply IH in E as (E1 & E2 & E3).
    destruct (record_outcome_counts f r t) as (R1 & R2 & R3).
    repeat split; [lia|auto|auto].
Qed.

(** C10. Every run that returns a result returns one with
    [total = successful + failed], as many processed files as successes
    and at most as many error messages as failures, whatever fails on
    the way; the only run without a result is the one that exits while
    authenticating. *)
Theorem processing_result_invariants (config : OCRConfig.t) (w : World) :
  match fst (OCRProcessor.process_all_images config w) with
  | Return r =>
      total r = successful r + failed r
      /\ length (processed_files r) = successful r
      /\ length (errors r) <= failed r
  | Raise e => e = SystemExit 1 /\ service w = false /\ auth_ok w = false
  end.
Proof.
  destruct (OCRProcessor.process_all_images config w) as [o w'] eqn:E.
  apply process_all_images_run in E. simpl.
  destruct E as [Hs Ha|w1 Hw1 Hs Hd|w1 t w2 w3 Hw1 Hs Hd Hloop Hcomb].
  - done.
  - simpl. lia.
  - apply process_loop_counts in Hloop as (E1 & E2 & E3). simpl in *.
    repeat split; [lia|auto|apply E3; lia].
Qed.

(** ** What a run logs *)

#[local] Instance trace_grows_preorder : PreOrder trace_grows.
Proof.
  split.
  - intros w. exists []. split; [by rewrite app_nil_r|apply not_elem_of_nil].
  - intros w1 w2 w3 (e1 & E1 & H1) (e2 & E2 & H2). exists (e1 ++ e2).
    split; [by rewrite E2, E1, app_assoc|].
    rewrite elem_of_app. tauto.
Qed.

Lemma trace_grows_same w w' : trace w' = trace w -> trace_grows w w'.
Proof.
  intros E. exists []. split; [by rewrite app_nil_r|apply not_elem_of_nil].
Qed.

Lemma trace_grows_log w e :
  e <> EvHandleCombination -> trace_grows w (log_event e w).
Proof.
  intros He. exists [e]. split; [done|]. by intros <-%list_elem_of_singleton.
Qed.

Lemma process_loop_trace config files t w :
  trace_grows w (snd (OCRProcessor.process_loop config files t w)).
Proof.
  apply (ok_process_loop trace_grows (fun _ => True)
           (fun e => e <> EvHandleCombination));
    auto using trace_grows_same, trace_grows_log.
Qed.

Lemma handle_text_combination_trace config w :
  exists evs,
    trace (snd (OCRProcessor._handle_text_combination config w))
    = trace w ++ EvHandleCombination :: evs.
Proof.
  unfold OCRProcessor._handle_text_combination. unfold bind at 1. simpl.
  match goal with |- context [snd (?m (log_event _ w))] =>
    assert (ok trace_grows m) as Hok
  end.
  { apply (ok_combinations trace_grows (fun _ => True));
      auto using trace_grows_same. }
  destruct (Hok (log_event EvHandleCombination w)) as [(evs & E & _) _].
  exists evs. rewrite E. simpl. by rewrite <- app_assoc.
Qed.

(** C2, as the code has it. The combination step is invoked exactly
    when the count of successes of the run is positive; that count
    includes the files skipped because both artifacts existed. *)
Theorem combination_iff_successful (config : OCRConfig.t) (w w' : World)
    (r : ProcessingResult) :
  OCRProcessor.process_all_images config w = (Return r, w') ->
  exists evs,
    trace w' = trace w ++ evs
    /\ (EvHandleCombination ∈ evs <-> 0 < successful r).
Proof.
  intros E. apply process_all_images_run in E.
  inversion E as [|w1 Hw1 Hs Hd|w1 t w2 w3 Hw1 Hs Hd Hloop Hcomb]; subst.
  - exists []. split.
    + destruct (service w); simpl; by rewrite app_nil_r.
    + simpl. split; [by intros ?%elem_of_nil|lia].
  - assert (trace (if service w then w else with_service true w) = trace w)
      as Hw1 by (by destruct (service w)).
    destruct (process_loop_trace config (discovered config w) empty_tally
                (if service w then w else with_service true w))
      as (evs & Et & Hno).
    rewrite Hloop, Hw1 in Et. simpl in Et.
    simpl. destruct (Nat.ltb_spec 0 (OCRProcessor.t_successful t)) as [Hp|Hp].
    + destruct (handle_text_combination_trace config w2) as (evs' & E').
      rewrite Hcomb in E'. simpl in E'.
      exists (evs ++ EvHandleCombination :: evs'). split.
      * by rewrite E', Et, <- app_assoc.
      * split; [done|]. intros _. rewrite elem_of_app. right. by left.
    + rewrite Hcomb. exists evs. split; [done|]. split; [done|lia].
Qed.

Lemma combination_iff_successful_witness :
  exists evs,
    trace (snd (OCRProcessor.process_all_images Sample.config
                  Sample.processed_before))
    = trace Sample.processed_before ++ evs
    /\ (EvHandleCombination ∈ evs
        <-> 0 < successful (mkResult 1 1 0 [] [Sample.a_png])).
Proof.
  apply (combination_iff_successful Sample.config Sample.processed_before).
  vm_compute. reflexivity.
Defined.

(** C2 as stated fails: the only discovered image has both artifacts,
    nothing is uploaded, and the combination is invoked all the same. *)
Lemma combination_after_skips_only :
  discovered Sample.config Sample.processed_before = [Sample.a_png]
  /\ already_processed Sample.config Sample.processed_before Sample.a_png
  /\ trace (snd (OCRProcessor.process_all_images Sample.config
                   Sample.processed_before))
     = [EvHandleCombination].
Proof.
  split; [by vm_compute|]. split; [|by vm_compute].
  split; eexists; vm_compute; reflexivity.
Qed.

(** ** What a run does to the files *)

#[local] Instance files_kept_preorder : PreOrder files_kept.
Proof. split; [by intros w p|intros w1 w2 w3 H1 H2 p Hp; auto]. Qed.

#[local] Instance frame_preorder touched : PreOrder (frame touched).
Proof.
  split; [by intros w p|].
  intros w1 w2 w3 H1 H2 p Hp. by rewrite H2, H1.
Qed.

Lemma files_kept_same w w' : fs w' = fs w -> files_kept w w'.
Proof. intros E p. by rewrite E. Qed.

Lemma files_kept_write w p b : files_kept w (with_fs (<[p := b]> (fs w)) w).
Proof.
  intros q Hq. simpl. destruct (decide (p = q)) as [->|Hne].
  - rewrite lookup_insert_eq. by eexists.
  - by rewrite lookup_insert_ne.
Qed.

Lemma frame_same touched w w' : fs w' = fs w -> frame touched w w'.
Proof. intros E p _. by rewrite E. Qed.

Lemma frame_write (touched : path -> Prop) w p b :
  touched p -> frame touched w (with_fs (<[p := b]> (fs w)) w).
Proof.
  intros Hp q Hq. simpl. rewrite lookup_insert_ne; [done|]. by intros ->.
Qed.

Lemma artifact_inj dir1 dir2 s1 s2 :
  OCRProcessor.artifact dir1 s1 = OCRProcessor.artifact dir2 s2 ->
  dir1 = dir2 /\ s1 = s2.
Proof.
  unfold OCRProcessor.artifact, PyPath.child.
  intros [E1 E2]%app_inj_tail. split; [done|]. by apply app_inv_tail in E2.
Qed.

Lemma extract_text_from_image_frame config p w :
  frame (artifacts_of config p) w
        (snd (OCRProcessor.extract_text_from_image config p w)).
Proof.
  apply (ok_extract_text_from_image (frame (artifacts_of config p))
           (artifacts_of config p) (fun _ => True));
    auto using frame_same, frame_write; first [by left|by right].
Qed.

Lemma extract_text_from_image_keeps config p w :
  files_kept w (snd (OCRProcessor.extract_text_from_image config p w)).
Proof.
  apply (ok_extract_text_from_image files_kept (fun _ => True)
           (fun _ => True));
    auto using files_kept_same, files_kept_write.
Qed.

Lemma handle_text_combination_frame config w :
  frame combined_name w
        (snd (OCRProcessor._handle_text_combination config w)).
Proof.
  apply (ok_handle_text_combination (frame combined_name) combined_name
           (fun _ => True));
    auto using frame_same, frame_write.
Qed.

Lemma handle_text_combination_keeps config w :
  files_kept w (snd (OCRProcessor._handle_text_combination config w)).
Proof.
  apply (ok_handle_text_combination files_kept (fun _ => True)
           (fun _ => True));
    auto using files_kept_same, files_kept_write.
Qed.

(** The step of lines 92-96: with both artifacts in place nothing is
    uploaded or written, and the file is reported as a success. *)
Lemma extract_text_from_image_skip config w p :
  already_processed config w p ->
  OCRProcessor.extract_text_from_image config p w = (Return (true, None), w).
Proof.
  intros [Ht Hr].
  unfold OCRProcessor.extract_text_from_image, try_except, bind, path_exists, get.
  by rewrite !bool_decide_eq_true_2.
Qed.

Lemma already_processed_same_stem config w p q :
  PyPath.stem q = PyPath.stem p ->
  already_processed config w p -> already_processed config w q.
Proof. unfold already_processed. by intros ->. Qed.

Lemma process_loop_skip config p files t w t' w' :
  OCRProcessor.process_loop config files t w = (Return t', w') ->
  already_processed config w p ->
  already_processed config w' p
  /\ (forall x, artifacts_of config p x -> fs w' !! x = fs w !! x)
  /\ (forall q, q ∈ files -> PyPath.stem q = PyPath.stem p ->
                q ∈ OCRProcessor.t_processed_files t')
  /\ (forall q, q ∈ OCRProcessor.t_processed_files t ->
                q ∈ OCRProcessor.t_processed_files t').
Proof.
  revert t w. induction files as [|f files IH]; intros t w; simpl.
  - intros [= <- <-] Hp. split; [done|]. split; [done|]. split; [|done].
    by intros q ?%elem_of_nil.
  - unfold bind. intros E Hp.
    destruct (decide (PyPath.stem f = PyPath.stem p)) as [Hst|Hst].
    + rewrite extract_text_from_image_skip in E
        by (by apply (already_processed_same_stem config w p)).
      apply IH in E as (H1 & H2 & H3 & H4); [|done].
      split; [done|]. split; [done|]. split.
      * intros q [->|Hq]%elem_of_cons Hq'; [|by auto].
        apply H4. simpl. rewrite elem_of_app. right. by left.
      * intros q Hq. apply H4. simpl. rewrite elem_of_app. by left.
    + pose proof (extract_text_from_image_frame config f w) as Hfr.
      pose proof (extract_text_from_image_keeps config f w) as Hk.
      destruct (OCRProcessor.extract_text_from_image config f w)
        as [[r|e] w1] eqn:Ex; [|done]. simpl in Hfr, Hk.
      assert (forall x, artifacts_of config p x -> fs w1 !! x = fs w !! x)
        as Hsame.
      { intros x Hx. apply Hfr. intros Hx'. apply Hst.
        destruct Hx as [->| ->], Hx' as [Hx'|Hx'];
          by apply artifact_inj in Hx' as [_ ?]. }
      assert (already_processed config w1 p) as Hp1.
      { destruct Hp as [Ht Hr]. split; by apply Hk. }
      apply IH in E as (H1 & H2 & H3 & H4); [|done].
      split; [done|]. split; [|split].
      * intros x Hx. by rewrite H2, Hsame.
      * intros q [->|Hq]%elem_of_cons Hq'; [done|by auto].
      * intros q Hq. apply H4. destruct r as [[] msg]; simpl; [|done].
        rewrite elem_of_app. by left.
Qed.

Lemma already_processed_fs config w w1 p :
  fs w1 = fs w -> already_processed config w p -> already_processed config w1 p.
Proof. unfold already_processed. by intros ->. Qed.

(** C1, as the code has it. An image whose two artifacts exist when the
    run starts is skipped: its step, in any world where the two artifacts
    exist, uploads and writes nothing; the artifacts are still there
    after the run, with the same content unless they carry the name of a
    combined output; and the result lists the image among the processed
    files, so that it counts as a success. *)
Theorem skipped_file_counts_as_success (config : OCRConfig.t) (w w' : World)
    (r : ProcessingResult) (p : path) :
  OCRProcessor.process_all_images config w = (Return r, w') ->
  p ∈ discovered config w ->
  already_processed config w p ->
  (forall w0, already_processed config w0 p ->
     OCRProcessor.extract_text_from_image config p w0
     = (Return (true, None), w0))
  /\ p ∈ processed_files r
  /\ 0 < successful r
  /\ already_processed config w' p
  /\ ((forall x, artifacts_of config p x -> ~ combined_name x) ->
      forall x, artifacts_of config p x -> fs w' !! x = fs w !! x).
Proof.
  intros E Hin Hp.
  split; [intros w0; apply extract_text_from_image_skip|].
  apply process_all_images_run in E.
  inversion E as [|w1 Hw1 Hs Hd|w1 t w2 w3 Hw1 Hs Hd Hloop Hcomb]; subst.
  { rewrite Hd in Hin. by apply elem_of_nil in Hin. }
  set (w1 := if service w then w else with_service true w) in *.
  assert (fs w1 = fs w) as Hfs by (unfold w1; by destruct (service w)).
  pose proof (process_loop_counts _ _ _ _ _ _ Hloop) as (_ & Hlen & _).
  apply process_loop_skip with (p := p) in Hloop as (H1 & H2 & H3 & _);
    [|by apply (already_processed_fs config w)].
  specialize (H3 p Hin eq_refl). specialize (Hlen eq_refl).
  assert (0 < OCRProcessor.t_successful t) as Hpos.
  { rewrite <- Hlen. destruct (OCRProcessor.t_processed_files t);
      [by apply elem_of_nil in H3|simpl; lia]. }
  split; [done|]. split; [done|].
  apply Nat.ltb_lt in Hpos. rewrite Hpos in Hcomb.
  pose proof (handle_text_combination_keeps config w2) as Hk.
  pose proof (handle_text_combination_frame config w2) as Hfr.
  rewrite Hcomb in Hk, Hfr. simpl in Hk, Hfr. split.
  - destruct H1 as [Ht Hr]. split; by apply Hk.
  - intros Hnc x Hx. rewrite Hfr by (by apply Hnc).
    by rewrite H2, Hfs.
Qed.

Lemma skipped_file_counts_as_success_witness :
  let w := Sample.processed_before in
  let w' := snd (OCRProcessor.process_all_images Sample.config w) in
  (forall w0, already_processed Sample.config w0 Sample.a_png ->
     OCRProcessor.extract_text_from_image Sample.config Sample.a_png w0
     = (Return (true, None), w0))
  /\ Sample.a_png ∈ processed_files (mkResult 1 1 0 [] [Sample.a_png])
  /\ 0 < successful (mkResult 1 1 0 [] [Sample.a_png])
  /\ already_processed Sample.config w' Sample.a_png
  /\ forall x, artifacts_of Sample.config Sample.a_png x ->
               fs w' !! x = fs w !! x.
Proof.
  assert (OCRProcessor.process_all_images Sample.config
            Sample.processed_before
          = (Return (mkResult 1 1 0 [] [Sample.a_png]),
             snd (OCRProcessor.process_all_images Sample.config
                    Sample.processed_before))) as Hrun
    by (vm_compute; reflexivity).
  assert (Sample.a_png ∈ discovered Sample.config Sample.processed_before)
    as Hin by (vm_compute; left).
  assert (already_processed Sample.config Sample.processed_before
            Sample.a_png) as Hdone
    by (split; eexists; vm_compute; reflexivity).
  destruct (skipped_file_counts_as_success Sample.config
              Sample.processed_before _ _ Sample.a_png Hrun Hin Hdone)
    as (H1 & H2 & H3 & H4 & H5).
  split; [exact H1|]. split; [exact H2|]. split; [exact H3|].
  split; [exact H4|]. apply H5.
  intros x [->| ->]; vm_compute; discriminate.
Defined.

(** C1 as stated fails: the skipped image is counted in [successful]. *)
Lemma skipped_file_in_success_count :
  discovered Sample.config Sample.processed_before = [Sample.a_png]
  /\ already_processed Sample.config Sample.processed_before Sample.a_png
  /\ fst (OCRProcessor.process_all_images Sample.config
            Sample.processed_before)
     = Return (mkResult 1 1 0 [] [Sample.a_png]).
Proof.
  split; [by vm_compute|]. split; [|by vm_compute].
  split; eexists; vm_compute; reflexivity.
Qed.

(** ** Running a computation step by step *)

Lemma bind_Return {A B} (m : M A) (k : A -> M B) w b w' :
  bind m k w = (Return b, w') ->
  exists a w1, m w = (Return a, w1) /\ k a w1 = (Return b, w').
Proof.
  unfold bind. destruct (m w) as [[a|e] w1]; [by eauto|discriminate].
Qed.

Lemma fault_Return w u w1 :
  fault w = (Return u, w1) ->
  fs w1 = fs w /\ clock w1 = clock w /\ trace w1 = trace w.
Proof.
  unfold fault. destruct (faults w) as [|[e|] rest]; by intros [= <- <-].
Qed.

Lemma fault_none w : faults w = [] -> fault w = (Return tt, w).
Proof. unfold fault. by intros ->. Qed.

Lemma open_read_Return p w u w1 :
  open_read p w = (Return u, w1) -> fs w1 = fs w /\ is_Some (fs w !! p).
Proof.
  unfold open_read.
  intros (? & w2 & (Hf & _)%fault_Return & (o & w3 & [= <- <-] & E)%bind_Return)%bind_Return.
  rewrite Hf in E. destruct (fs w !! p) eqn:El; [|discriminate].
  injection E as <- <-. split; [done|by eexists].
Qed.

Lemma read_bytes_Return p w data w1 :
  read_bytes p w = (Return data, w1) ->
  fs w1 = fs w /\ data = content_in w p.
Proof.
  unfold read_bytes, content_in.
  intros (? & w2 & (Hf & _)%fault_Return & [= <- <-])%bind_Return.
  by rewrite Hf.
Qed.

Lemma open_write_Return p w u w1 :
  open_write p w = (Return u, w1) -> fs w1 = <[p := []]> (fs w).
Proof.
  unfold open_write. destruct u.
  intros (? & w2 & (Hf & _)%fault_Return & [= <-])%bind_Return.
  simpl. by rewrite Hf.
Qed.

Lemma write_bytes_Return p data w u w1 :
  write_bytes p data w = (Return u, w1) ->
  fs w1 = <[p := content_in w p ++ data]> (fs w).
Proof.
  unfold write_bytes, content_in. destruct u.
  intros (? & w2 & (Hf & _)%fault_Return & [= <-])%bind_Return.
  simpl. by rewrite Hf.
Qed.

Lemma open_read_none p w :
  faults w = [] -> is_Some (fs w !! p) -> open_read p w = (Return tt, w).
Proof.
  intros Hf [x Hx]. unfold open_read, bind, get. by rewrite fault_none, Hx.
Qed.

Lemma read_bytes_none p w :
  faults w = [] -> read_bytes p w = (Return (content_in w p), w).
Proof. intros Hf. unfold read_bytes, bind. by rewrite fault_none. Qed.

Lemma open_write_none p w :
  faults w = [] ->
  open_write p w = (Return tt, with_fs (<[p := []]> (fs w)) w).
Proof. intros Hf. unfold open_write, bind. by rewrite fault_none. Qed.

Lemma write_bytes_none p data w :
  faults w = [] ->
  write_bytes p data w
  = (Return tt, with_fs (<[p := content_in w p ++ data]> (fs w)) w).
Proof. intros Hf. unfold write_bytes, bind. by rewrite fault_none. Qed.

Lemma content_in_insert_eq w w1 p x :
  fs w1 = <[p := x]> (fs w) -> content_in w1 p = x.
Proof. unfold content_in. intros ->. by rewrite lookup_insert_eq. Qed.

Lemma content_in_insert_ne w w1 p q x :
  fs w1 = <[p := x]> (fs w) -> p <> q -> content_in w1 q = content_in w q.
Proof. unfold content_in. intros -> Hne. by rewrite lookup_insert_ne. Qed.

(** ** The order on paths *)

Section lex.
Context {A : Type} (cmp : A -> A -> comparison).
Hypothesis cmp_eq : forall x y, cmp x y = Eq <-> x = y.
Hypothesis cmp_antisym : forall x y, cmp y x = CompOpp (cmp x y).
Hypothesis cmp_lt_trans :
  forall x y z, cmp x y = Lt -> cmp y z = Lt -> cmp x z = Lt.

Lemma lex_compare_eq l1 l2 : PyPath.lex_compare cmp l1 l2 = Eq <-> l1 = l2.
Proof.
  revert l2. induction l1 as [|x l1 IH]; intros [|y l2]; simpl; try done.
  destruct (cmp x y) eqn:E.
  - apply cmp_eq in E as ->. rewrite IH. split; [by intros ->|by intros [= ->]].
  - split; [done|]. intros [= -> _]. by rewrite (proj2 (cmp_eq y y)) in E.
  - split; [done|]. intros [= -> _]. by rewrite (proj2 (cmp_eq y y)) in E.
Qed.

Lemma lex_compare_antisym l1 l2 :
  PyPath.lex_compare cmp l2 l1 = CompOpp (PyPath.lex_compare cmp l1 l2).
Proof.
  revert l2. induction l1 as [|x l1 IH]; intros [|y l2]; simpl; try done.
  rewrite cmp_antisym. destruct (cmp x y); simpl; [apply IH|done|done].
Qed.

Lemma lex_compare_lt_trans l1 l2 l3 :
  PyPath.lex_compare cmp l1 l2 = Lt -> PyPath.lex_compare cmp l2 l3 = Lt ->
  PyPath.lex_compare cmp l1 l3 = Lt.
Proof.
  revert l2 l3.
  induction l1 as [|x l1 IH]; intros [|y l2] [|z l3]; simpl; try done.
  destruct (cmp x y) eqn:Exy, (cmp y z) eqn:Eyz; try done.
  - apply cmp_eq in Exy as ->. rewrite Eyz. apply IH.
  - apply cmp_eq in Exy as ->. by rewrite Eyz.
  - apply cmp_eq in Eyz as ->. by rewrite Exy.
  - by rewrite (cmp_lt_trans x y z).
Qed.

End lex.

Lemma N_compare_lt_trans (x y z : N) :
  (x ?= y)%N = Lt -> (y ?= z)%N = Lt -> (x ?= z)%N = Lt.
Proof. rewrite !N.compare_lt_iff. lia. Qed.

Lemma N_compare_antisym (x y : N) : (y ?= x)%N = CompOpp (x ?= y)%N.
Proof. apply N.compare_antisym. Qed.

Lemma text_compare_eq s1 s2 : PyPath.text_compare s1 s2 = Eq <-> s1 = s2.
Proof. apply lex_compare_eq, N.compare_eq_iff. Qed.

Lemma text_compare_antisym s1 s2 :
  PyPath.text_compare s2 s1 = CompOpp (PyPath.text_compare s1 s2).
Proof. apply lex_compare_antisym, N_compare_antisym. Qed.

Lemma text_compare_lt_trans s1 s2 s3 :
  PyPath.text_compare s1 s2 = Lt -> PyPath.text_compare s2 s3 = Lt ->
  PyPath.text_compare s1 s3 = Lt.
Proof.
  exact (lex_compare_lt_trans _ N.compare_eq_iff N_compare_lt_trans s1 s2 s3).
Qed.

Lemma path_compare_eq p q : PyPath.compare p q = Eq <-> p = q.
Proof. apply lex_compare_eq, text_compare_eq. Qed.

Lemma path_compare_antisym p q :
  PyPath.compare q p = CompOpp (PyPath.compare p q).
Proof. apply lex_compare_antisym, text_compare_antisym. Qed.

Lemma path_compare_lt_trans p q r :
  PyPath.compare p q = Lt -> PyPath.compare q r = Lt ->
  PyPath.compare p r = Lt.
Proof.
  exact (lex_compare_lt_trans _ text_compare_eq text_compare_lt_trans p q r).
Qed.

#[local] Instance path_le_refl : Reflexive PyPath.le.
Proof. intros p. unfold PyPath.le. by rewrite (proj2 (path_compare_eq p p)). Qed.

#[local] Instance path_le_trans : Transitive PyPath.le.
Proof.
  intros p q r. unfold PyPath.le.
  destruct (PyPath.compare p q) eqn:E1; [|
    destruct (PyPath.compare q r) eqn:E2|]; try done.
  - by apply path_compare_eq in E1 as ->.
  - by apply path_compare_eq in E2 as <-; rewrite E1.
  - by rewrite (path_compare_lt_trans p q r).
Qed.

#[local] Instance path_le_total : Total PyPath.le.
Proof.
  intros p q. unfold PyPath.le. rewrite (path_compare_antisym p q).
  destruct (PyPath.compare p q); simpl; auto.
Qed.

#[local] Instance path_le_antisym : AntiSymm (=) PyPath.le.
Proof.
  intros p q. unfold PyPath.le. rewrite (path_compare_antisym p q).
  destruct (PyPath.compare p q) eqn:E; simpl; try done.
  by apply path_compare_eq in E.
Qed.

Lemma sorted_StronglySorted l : StronglySorted PyPath.le (PyPath.sorted l).
Proof. apply StronglySorted_merge_sort; apply _. Qed.

Lemma sorted_Permutation l : PyPath.sorted l ≡ₚ l.
Proof. apply merge_sort_Permutation. Qed.


(** ** Combination without headers *)

Lemma In_listing (m : gmap (list (list N)) (list byte)) f :
  In f (map fst (map_to_list m)) <-> is_Some (m !! f).
Proof.
  rewrite in_map_iff. split.
  - intros ([k v] & <- & Hin). apply list_elem_of_In in Hin.
    apply elem_of_map_to_list in Hin. by eexists.
  - intros [v Hv]. exists (f, v). split; [done|].
    apply list_elem_of_In. by apply elem_of_map_to_list.
Qed.

Lemma get_combinable_files_run text_dir w :
  TextProcessor._get_combinable_files text_dir w
  = (Return (candidates text_dir w), w).
Proof. done. Qed.

Lemma elem_of_candidates text_dir w f :
  f ∈ candidates text_dir w <->
  is_Some (fs w !! f)
  /\ PyPath.is_child_of text_dir f = true
  /\ PyStr.endswith (lit ".txt") (PyPath.name f) = true
  /\ PyStr.startswith (lit "combined_") (PyPath.name f) = false.
Proof.
  unfold candidates. simpl.
  rewrite list_elem_of_In, !filter_In, In_listing, andb_true_iff,
    negb_true_iff.
  tauto.
Qed.


Lemma map_content_in_ext w w1 out x files :
  fs w1 = <[out := x]> (fs w) -> out ∉ files ->
  map (content_in w1) files = map (content_in w) files.
Proof.
  intros E Hout. apply map_ext_in. intros f Hf.
  apply (content_in_insert_ne w w1 out f x E).
  intros ->. by apply Hout, list_elem_of_In.
Qed.

(** What the copy loop appends to the output. *)
Lemma copy_files_Return out n files : forall i w w' prev,
  n = i + length files -> out ∉ files -> fs w !! out = Some prev ->
  TextProcessor.copy_files out n i files w = (Return tt, w') ->
  fs w' = <[out := prev ++ PyStr.join TextProcessor.separator
                              (map (content_in w) files)]> (fs w).
Proof.
  induction files as [|f files IH]; intros i w w' prev Hn Hout Hprev;
    cbn [TextProcessor.copy_files].
  - intros [= <-]. simpl. rewrite app_nil_r. symmetry. by apply insert_id.
  - apply not_elem_of_cons in Hout as [Hne Hout].
    intros (? & w1 & [E1 _]%open_read_Return & H)%bind_Return.
    apply bind_Return in H as (data & w2 & [E2 ->]%read_bytes_Return & H).
    apply bind_Return in H as (? & w3 & E3%write_bytes_Return & H).
    apply bind_Return in H as (? & w4 & E4 & H).
    assert (content_in w1 f = content_in w f) as Hdata
      by (unfold content_in; by rewrite E1).
    assert (content_in w2 out = prev) as Hprev2
      by (unfold content_in; by rewrite E2, E1, Hprev).
    rewrite Hprev2, E2, E1, Hdata in E3.
    destruct files as [|g files].
    + replace (i <? n - 1) with false in E4
        by (symmetry; apply Nat.ltb_ge; simpl in Hn; lia).
      cbn [TextProcessor.copy_files] in H. unfold ret in E4, H.
      simplify_eq. exact E3.
    + replace (i <? n - 1) with true in E4
        by (symmetry; apply Nat.ltb_lt; simpl in Hn; lia).
      apply write_bytes_Return in E4.
      rewrite (content_in_insert_eq w w3 out _ E3), E3, insert_insert_eq in E4.
      apply IH with (prev := (prev ++ content_in w f) ++ TextProcessor.separator)
        in H; [|simpl in *; lia|done|by rewrite E4, lookup_insert_eq].
      rewrite H, E4, insert_insert_eq.
      rewrite (map_content_in_ext w w4 out _ (g :: files) E4) by done.
      change (map (content_in w) (f :: g :: files))
        with (content_in w f :: map (content_in w) (g :: files)).
      rewrite join_cons by done. by rewrite <- !app_assoc.
Qed.



Lemma no_header_output_not_candidate text_dir w w0 :
  no_header_output text_dir w0 ∉ PyPath.sorted (candidates text_dir w).
Proof.
  rewrite sorted_Permutation, elem_of_candidates.
  unfold no_header_output. rewrite name_child. by intros (_ & _ & _ & ?).
Qed.

Lemma time_now_run w :
  time_now w = (Return (next_time w),
                match clock w with [] => w | _ :: rest => with_clock rest w end).
Proof. unfold time_now, next_time. by destruct (clock w). Qed.

Lemma try_except_Some {A} (m : M (option A)) (k : error -> M (option A))
    (a : A) w w' :
  (forall e w1 w2, k e w1 <> (Return (Some a), w2)) ->
  try_except m k w = (Return (Some a), w') -> m w = (Return (Some a), w').
Proof.
  intros Hk. unfold try_except.
  destruct (m w) as [[r|[e|c]] w1]; try done. intros E. by apply Hk in E.
Qed.

Lemma combine_texts_Return config output_dir text_dir w o w' :
  TextProcessor._get_text_directory config output_dir = Some text_dir ->
  TextProcessor.combine_texts config output_dir w = (Return (Some o), w') ->
  candidates text_dir w <> []
  /\ o = no_header_output text_dir w
  /\ fs w' = <[o := PyStr.join TextProcessor.separator
                      (map (content_in w)
                           (PyPath.sorted (candidates text_dir w)))]> (fs w).
Proof.
  intros Hdir E. unfold TextProcessor.combine_texts in E.
  apply try_except_Some in E; [|done].
  rewrite Hdir in E.
  apply bind_Return in E as (l & w0 & El & E).
  rewrite get_combinable_files_run in El. injection El as <- <-.
  destruct (candidates text_dir w) as [|f l] eqn:Ec; [done|].
  rewrite <- Ec in *. split; [congruence|].
  apply bind_Return in E as (ts & w1 & Et & E).
  rewrite time_now_run in Et. injection Et as <- <-.
  fold (no_header_output text_dir w) in E.
  set (out := no_header_output text_dir w) in *.
  set (w1 := match clock w with [] => w | _ :: rest => with_clock rest w end)
    in *.
  assert (fs w1 = fs w) as Hw1 by (unfold w1; by destruct (clock w)).
  apply bind_Return in E as (? & w2 & E2%open_write_Return & E).
  apply bind_Return in E as ([] & w3 & E3 & E).
  injection E as <- <-. split; [done|].
  rewrite Hw1 in E2.
  apply copy_files_Return with (prev := []) in E3.
  - rewrite E3, E2, insert_insert_eq.
    rewrite (map_content_in_ext w w2 out []); [done|done|].
    apply no_header_output_not_candidate.
  - simpl. by rewrite sorted_Permutation.
  - apply no_header_output_not_candidate.
  - by rewrite E2, lookup_insert_eq.
Qed.



Lemma combine_texts_no_candidates config output_dir text_dir w :
  TextProcessor._get_text_directory config output_dir = Some text_dir ->
  candidates text_dir w = [] ->
  TextProcessor.combine_texts config output_dir w = (Return None, w).
Proof.
  intros Hdir Hc. unfold TextProcessor.combine_texts, try_except, bind.
  by rewrite Hdir, get_combinable_files_run, Hc.
Qed.




(** ** The names of combined outputs *)

Lemma text_of_string_inj s1 s2 :
  text_of_string s1 = text_of_string s2 -> s1 = s2.
Proof.
  unfold text_of_string. intros E.
  rewrite <- (string_of_list_ascii_of_string s1),
          <- (string_of_list_ascii_of_string s2).
  f_equal. revert E.
  generalize (list_ascii_of_string s1) (list_ascii_of_string s2).
  induction l as [|a l IH]; intros [|a' l']; simpl; try done.
  intros [= Ea El]. f_equal; [|by apply IH].
  by rewrite <- (ascii_N_embedding a), Ea, ascii_N_embedding.
Qed.

Lemma to_int_printable z :
  Z.to_int z <> Decimal.Pos Decimal.Nil /\ Z.to_int z <> Decimal.Neg Decimal.Nil.
Proof.
  destruct z as [|p|p]; simpl; split; try done;
    intros [= E]; by apply DecimalPos.Unsigned.to_uint_nonnil in E.
Qed.

Lemma of_int_inj z1 z2 : PyStr.of_int z1 = PyStr.of_int z2 -> z1 = z2.
Proof.
  unfold PyStr.of_int. intros E%text_of_string_inj.
  apply DecimalZ.to_int_inj.
  destruct (to_int_printable z1) as [H1 H1'], (to_int_printable z2) as [H2 H2'].
  pose proof (NilZero.isi _ H1 H1') as E1.
  pose proof (NilZero.isi _ H2 H2') as E2.
  rewrite E in E1. rewrite E1 in E2. by injection E2.
Qed.

Lemma child_inj dir n1 n2 : PyPath.child dir n1 = PyPath.child dir n2 -> n1 = n2.
Proof. unfold PyPath.child. by intros [_ ?]%app_inj_tail. Qed.

Lemma no_header_output_eq text_dir w1 w2 :
  no_header_output text_dir w1 = no_header_output text_dir w2
  <-> next_time w1 = next_time w2.
Proof.
  unfold no_header_output. split; [|by intros ->].
  intros E%child_inj%app_inv_head%app_inv_tail. by apply of_int_inj.
Qed.

Lemma header_output_eq output_dir text_dir w1 w2 :
  header_output output_dir text_dir w1 = header_output output_dir text_dir w2
  <-> next_time w1 = next_time w2.
Proof.
  unfold header_output. split; [|by intros ->].
  intros E%child_inj%app_inv_head%app_inv_head%app_inv_head%app_inv_tail.
  by apply of_int_inj.
Qed.

Lemma outputs_differ output_dir text_dir w1 w2 :
  no_header_output text_dir w1 <> header_output output_dir text_dir w2.
Proof.
  unfold no_header_output, header_output, header_prefix.
  intros E%child_inj. by destruct (bool_decide _).
Qed.

Lemma combine_texts_with_headers_Return config output_dir text_dir w o w' :
  TextProcessor._get_text_directory config output_dir = Some text_dir ->
  TextProcessor.combine_texts_with_headers config output_dir w
  = (Return (Some o), w') ->
  candidates text_dir w <> [] /\ o = header_output output_dir text_dir w.
Proof.
  intros Hdir E. unfold TextProcessor.combine_texts_with_headers in E.
  apply try_except_Some in E; [|done].
  rewrite Hdir in E.
  apply bind_Return in E as (l & w0 & El & E).
  rewrite get_combinable_files_run in El. injection El as <- <-.
  destruct (candidates text_dir w) as [|f l] eqn:Ec; [done|].
  split; [done|].
  apply bind_Return in E as (ts & w1 & Et & E).
  rewrite time_now_run in Et. injection Et as <- <-.
  apply bind_Return in E as (? & w2 & _ & E).
  apply bind_Return in E as (? & w3 & _ & E).
  apply bind_Return in E as (? & w4 & _ & E).
  by injection E as <- <-.
Qed.

(** C8, as the code has it. Two combinations over the same directory
    that both return a path return the same path exactly when they are
    of the same kind and read the same second from the clock; a
    combination without headers and one with headers never share a
    path. *)
Theorem combined_names_collide_iff (config : OCRConfig.t) (output_dir : text)
    (text_dir : path) (w1 w2 w1' w2' : World) (o1 o2 : path) :
  TextProcessor._get_text_directory config output_dir = Some text_dir ->
  (TextProcessor.combine_texts config output_dir w1 = (Return (Some o1), w1') ->
   TextProcessor.combine_texts config output_dir w2 = (Return (Some o2), w2') ->
   (o1 = o2 <-> next_time w1 = next_time w2))
  /\ (TextProcessor.combine_texts_with_headers config output_dir w1
      = (Return (Some o1), w1') ->
      TextProcessor.combine_texts_with_headers config output_dir w2
      = (Return (Some o2), w2') ->
      (o1 = o2 <-> next_time w1 = next_time w2))
  /\ (TextProcessor.combine_texts config output_dir w1 = (Return (Some o1), w1') ->
      TextProcessor.combine_texts_with_headers config output_dir w2
      = (Return (Some o2), w2') ->
      o1 <> o2).
Proof.
  intros Hdir. split; [|split].
  - intros (_ & -> & _)%(combine_texts_Return _ _ text_dir)
           (_ & -> & _)%(combine_texts_Return _ _ text_dir); try done.
    apply no_header_output_eq.
  - intros (_ & ->)%(combine_texts_with_headers_Return _ _ text_dir)
           (_ & ->)%(combine_texts_with_headers_Return _ _ text_dir); try done.
    apply header_output_eq.
  - intros (_ & -> & _)%(combine_texts_Return _ _ text_dir)
           (_ & ->)%(combine_texts_with_headers_Return _ _ text_dir); try done.
    apply outputs_differ.
Qed.

Lemma combined_names_collide_iff_witness :
  let w1 := Sample.two_texts in
  let w2 := snd (TextProcessor.combine_texts Sample.config (lit "texts") w1) in
  Sample.old_combined = Sample.old_combined <-> next_time w1 = next_time w2.
Proof.
  refine (proj1 (combined_names_collide_iff Sample.config (lit "texts")
                   [lit "texts"] Sample.two_texts _ _
                   (snd (TextProcessor.combine_texts Sample.config
                           (lit "texts")
                           (snd (TextProcessor.combine_texts Sample.config
                                   (lit "texts") Sample.two_texts))))
                   Sample.old_combined Sample.old_combined eq_refl) _ _);
    vm_compute; reflexivity.
Defined.

(** C8 as stated fails: two combinations in a row within the same second
    return the same path, and the second one writes over the first. *)
Lemma combined_names_collide :
  let r1 := TextProcessor.combine_texts Sample.config (lit "texts")
              Sample.two_texts in
  let r2 := TextProcessor.combine_texts Sample.config (lit "texts") (snd r1) in
  fst r1 = Return (Some Sample.old_combined)
  /\ fst r2 = Return (Some Sample.old_combined).
Proof. by vm_compute. Qed.

(** ** What a combination leaves alone *)

Lemma try_except_bind_step {A B} (m : M A) (k : A -> M B) h w a w1 :
  m w = (Return a, w1) ->
  try_except (bind m k) h w = try_except (k a) h w1.
Proof. intros E. unfold try_except, bind. by rewrite E. Qed.

Lemma frame_fs touched w w1 w' :
  fs w1 = fs w -> frame touched w1 w' -> frame touched w w'.
Proof. intros E H p Hp. by rewrite H, E. Qed.

Lemma combine_texts_frame config output_dir text_dir w :
  TextProcessor._get_text_directory config output_dir = Some text_dir ->
  frame (fun x => x = no_header_output text_dir w) w
        (snd (TextProcessor.combine_texts config output_dir w)).
Proof.
  intros Hdir. unfold TextProcessor.combine_texts. rewrite Hdir.
  rewrite (try_except_bind_step _ _ _ w (candidates text_dir w) w)
    by apply get_combinable_files_run.
  destruct (candidates text_dir w) as [|f l]; [done|].
  rewrite (try_except_bind_step _ _ _ w _ _ (time_now_run w)).
  fold (no_header_output text_dir w).
  set (out := no_header_output text_dir w).
  set (T := fun x : path => x = out).
  eapply frame_fs; [|apply (ok_try_except (frame T))].
  - by destruct (clock w).
  - apply (ok_bind (frame T)); [|intros _].
    + apply (ok_open_write (frame T) T);
        auto using frame_same, frame_write; reflexivity.
    + apply (ok_bind (frame T)); [|intros _; apply (ok_ret (frame T))].
      apply (ok_copy_files (frame T) T);
        auto using frame_same, frame_write; reflexivity.
  - intros e. apply (ok_ret (frame T)).
Qed.

Lemma combine_texts_with_headers_frame config output_dir text_dir w :
  TextProcessor._get_text_directory config output_dir = Some text_dir ->
  frame (fun x => x = header_output output_dir text_dir w) w
        (snd (TextProcessor.combine_texts_with_headers config output_dir w)).
Proof.
  intros Hdir. unfold TextProcessor.combine_texts_with_headers. rewrite Hdir.
  rewrite (try_except_bind_step _ _ _ w (candidates text_dir w) w)
    by apply get_combinable_files_run.
  destruct (candidates text_dir w) as [|f l]; [done|].
  rewrite (try_except_bind_step _ _ _ w _ _ (time_now_run w)).
  fold (header_prefix output_dir).
  fold (header_output output_dir text_dir w).
  set (out := header_output output_dir text_dir w).
  set (T := fun x : path => x = out).
  eapply frame_fs; [|apply (ok_try_except (frame T))].
  - by destruct (clock w).
  - apply (ok_bind (frame T)); [|intros _].
    + apply (ok_open_write (frame T) T);
        auto using frame_same, frame_write; reflexivity.
    + apply (ok_bind (frame T)); [|intros _].
      * apply (ok_write_combined_file_header (frame T) T);
          auto using frame_same, frame_write; reflexivity.
      * apply (ok_bind (frame T)); [|intros _; apply (ok_ret (frame T))].
        apply (ok_write_files (frame T) T);
          auto using frame_same, frame_write; reflexivity.
  - intros e. apply (ok_ret (frame T)).
Qed.




(** ** Decoding and encoding again *)

Local Open Scope N_scope.

Lemma digits_base d q :
  d < 64 -> (d + q * 64) / 64 = q /\ (d + q * 64) mod 64 = d.
Proof.
  intros Hd. split.
  - rewrite N.div_add by lia. rewrite N.div_small by lia. lia.
  - rewrite N.Div0.mod_add. apply N.mod_small. lia.
Qed.

Lemma digits2 a b :
  b < 64 -> let c := a * 64 + b in c / 64 = a /\ c mod 64 = b.
Proof.
  intros Hb c. assert (c = b + a * 64) as -> by (subst c; lia).
  by apply digits_base.
Qed.

Lemma digits3 a b d :
  b < 64 -> d < 64 ->
  let c := a * 4096 + b * 64 + d in
  c / 4096 = a /\ (c / 64) mod 64 = b /\ c mod 64 = d.
Proof.
  intros Hb Hd c.
  assert (c = d + (b + a * 64) * 64) as Hc by (subst c; lia).
  destruct (digits_base d (b + a * 64) Hd) as [E1 E2].
  destruct (digits_base b a Hb) as [E3 E4].
  rewrite Hc. change 4096 with (64 * 64). rewrite <- N.Div0.div_div.
  rewrite E1, E2, E3, E4. auto.
Qed.

Lemma digits4 a b d e :
  b < 64 -> d < 64 -> e < 64 ->
  let c := a * 262144 + b * 4096 + d * 64 + e in
  c / 262144 = a /\ (c / 4096) mod 64 = b
  /\ (c / 64) mod 64 = d /\ c mod 64 = e.
Proof.
  intros Hb Hd He c.
  assert (c = e + (d + (b + a * 64) * 64) * 64) as Hc by (subst c; lia).
  destruct (digits_base e (d + (b + a * 64) * 64) He) as [E1 E2].
  destruct (digits_base d (b + a * 64) Hd) as [E3 E4].
  destruct (digits_base b a Hb) as [E5 E6].
  rewrite Hc. change 262144 with (64 * (64 * 64)). change 4096 with (64 * 64).
  rewrite <- !N.Div0.div_div.
  rewrite E1, E2, E3, E4, E5, E6. auto.
Qed.

Lemma cons_opt_Some c r s :
  Utf8.cons_opt c r = Some s -> exists s', r = Some s' /\ s = c :: s'.
Proof. destruct r; simpl; [|done]. intros [= <-]. by eauto. Qed.

Lemma is_cont_range b : Utf8.is_cont b = true -> 0x80 <= b < 0xC0.
Proof.
  unfold Utf8.is_cont. rewrite andb_true_iff, N.leb_le, N.ltb_lt. lia.
Qed.

Lemma decode_N_cons b0 r0 :
  Utf8.decode_N (b0 :: r0) =
  if b0 <? 0x80 then Utf8.cons_opt b0 (Utf8.decode_N r0)
  else if b0 <? 0xC2 then None
  else if b0 <? 0xE0 then
    match r0 with
    | b1 :: r1 =>
        if Utf8.is_cont b1
        then Utf8.cons_opt ((b0 - 0xC0) * 64 + (b1 - 0x80)) (Utf8.decode_N r1)
        else None
    | _ => None
    end
  else if b0 <? 0xF0 then
    match r0 with
    | b1 :: b2 :: r2 =>
        let c := (b0 - 0xE0) * 4096 + (b1 - 0x80) * 64 + (b2 - 0x80) in
        if Utf8.is_cont b1 && Utf8.is_cont b2
           && negb (c <? 0x800)
           && negb ((0xD800 <=? c) && (c <=? 0xDFFF))
        then Utf8.cons_opt c (Utf8.decode_N r2)
        else None
    | _ => None
    end
  else if b0 <? 0xF5 then
    match r0 with
    | b1 :: b2 :: b3 :: r3 =>
        let c := (b0 - 0xF0) * 262144 + (b1 - 0x80) * 4096
                 + (b2 - 0x80) * 64 + (b3 - 0x80) in
        if Utf8.is_cont b1 && Utf8.is_cont b2 && Utf8.is_cont b3
           && negb (c <? 0x10000) && (c <? 0x110000)
        then Utf8.cons_opt c (Utf8.decode_N r3)
        else None
    | _ => None
    end
  else None.
Proof. done. Qed.

Lemma encode_cons c s b bs :
  Utf8.encode_char c = Some b -> Utf8.encode s = Some bs ->
  Utf8.encode (c :: s) = Some (b ++ bs).
Proof. intros E1 E2. simpl. by rewrite E1, E2. Qed.

Lemma encode_char_1 c : c < 0x80 -> Utf8.encode_char c = Some [Utf8.byte_of c].
Proof.
  intros H. unfold Utf8.encode_char.
  by destruct (N.ltb_spec c 0x80); [|lia].
Qed.

Lemma encode_char_2 c :
  0x80 <= c < 0x800 ->
  Utf8.encode_char c
  = Some [Utf8.byte_of (0xC0 + c / 64); Utf8.byte_of (0x80 + c mod 64)].
Proof.
  intros H. unfold Utf8.encode_char.
  destruct (N.ltb_spec c 0x80); [lia|].
  by destruct (N.ltb_spec c 0x800); [|lia].
Qed.

Lemma encode_char_3 c :
  0x800 <= c < 0x10000 -> (0xD800 <=? c) && (c <=? 0xDFFF) = false ->
  Utf8.encode_char c
  = Some [Utf8.byte_of (0xE0 + c / 4096);
          Utf8.byte_of (0x80 + (c / 64) mod 64);
          Utf8.byte_of (0x80 + c mod 64)].
Proof.
  intros H Hs. unfold Utf8.encode_char. rewrite Hs.
  destruct (N.ltb_spec c 0x80); [lia|].
  destruct (N.ltb_spec c 0x800); [lia|].
  by destruct (N.ltb_spec c 0x10000); [|lia].
Qed.

Lemma encode_char_4 c :
  0x10000 <= c < 0x110000 ->
  Utf8.encode_char c
  = Some [Utf8.byte_of (0xF0 + c / 262144);
          Utf8.byte_of (0x80 + (c / 4096) mod 64);
          Utf8.byte_of (0x80 + (c / 64) mod 64);
          Utf8.byte_of (0x80 + c mod 64)].
Proof.
  intros H. unfold Utf8.encode_char.
  destruct (N.ltb_spec c 0x80); [lia|].
  destruct (N.ltb_spec c 0x800); [lia|].
  destruct (N.ltb_spec c 0x10000); [lia|].
  by destruct (N.ltb_spec c 0x110000); [|lia].
Qed.

Ltac restore_bytes :=
  repeat match goal with
         | |- context [?k + (?b - ?k)] =>
             replace (k + (b - k)) with b by lia
         end.

Lemma encode_decode_N n : forall bs s,
  (length bs <= n)%nat -> Utf8.decode_N bs = Some s ->
  Utf8.encode s = Some (map Utf8.byte_of bs).
Proof.
  induction n as [|n IH]; intros [|b0 r0] s Hn; simpl in Hn;
    try lia; try (by intros [= <-]).
  rewrite decode_N_cons.
  destruct (N.ltb_spec b0 0x80) as [H1|H1].
  { intros (s' & Hs' & ->)%cons_opt_Some.
    apply (encode_cons _ _ [_]); [by apply encode_char_1|].
    apply IH; [lia|done]. }
  destruct (N.ltb_spec b0 0xC2) as [H2|H2]; [done|].
  destruct (N.ltb_spec b0 0xE0) as [H3|H3].
  { destruct r0 as [|b1 r1]; [done|].
    destruct (Utf8.is_cont b1) eqn:C1; [|done].
    apply is_cont_range in C1.
    intros (s' & Hs' & ->)%cons_opt_Some.
    destruct (digits2 (b0 - 0xC0) (b1 - 0x80)) as [D1 D2]; [lia|].
    simpl in D1, D2.
    assert (Utf8.encode s' = Some (map Utf8.byte_of r1)) as Hs2
      by (apply IH; [simpl in Hn; lia|done]).
    assert (0x80 <= (b0 - 0xC0) * 64 + (b1 - 0x80) < 0x800) as Hc by lia.
    rewrite (encode_cons _ _ _ _ (encode_char_2 _ Hc) Hs2).
    rewrite D1, D2. simpl. by restore_bytes. }
  destruct (N.ltb_spec b0 0xF0) as [H4|H4].
  { destruct r0 as [|b1 [|b2 r2]]; try done. cbv zeta.
    destruct (Utf8.is_cont b1) eqn:C1; [|done].
    destruct (Utf8.is_cont b2) eqn:C2; [|done].
    apply is_cont_range in C1. apply is_cont_range in C2.
    destruct (digits3 (b0 - 0xE0) (b1 - 0x80) (b2 - 0x80))
      as (D1 & D2 & D3); [lia|lia|].
    simpl in D1, D2, D3.
    set (c := (b0 - 0xE0) * 4096 + (b1 - 0x80) * 64 + (b2 - 0x80)) in *.
    destruct (N.ltb_spec c 0x800) as [H5|H5]; [done|].
    destruct ((0xD800 <=? c) && (c <=? 0xDFFF)) eqn:Hs; [done|].
    simpl. intros (s' & Hs' & ->)%cons_opt_Some.
    assert (Utf8.encode s' = Some (map Utf8.byte_of r2)) as Hs2
      by (apply IH; [simpl in Hn; lia|done]).
    assert (0x800 <= c < 0x10000) as Hc by (subst c; lia).
    rewrite (encode_cons _ _ _ _ (encode_char_3 _ Hc Hs) Hs2).
    rewrite D1, D2, D3. simpl. by restore_bytes. }
  destruct (N.ltb_spec b0 0xF5) as [H6|H6]; [|done].
  destruct r0 as [|b1 [|b2 [|b3 r3]]]; try done. cbv zeta.
  destruct (Utf8.is_cont b1) eqn:C1; [|done].
  destruct (Utf8.is_cont b2) eqn:C2; [|done].
  destruct (Utf8.is_cont b3) eqn:C3; [|done].
  apply is_cont_range in C1. apply is_cont_range in C2.
  apply is_cont_range in C3.
  destruct (digits4 (b0 - 0xF0) (b1 - 0x80) (b2 - 0x80) (b3 - 0x80))
    as (D1 & D2 & D3 & D4); [lia|lia|lia|].
  simpl in D1, D2, D3, D4.
  set (c := (b0 - 0xF0) * 262144 + (b1 - 0x80) * 4096
            + (b2 - 0x80) * 64 + (b3 - 0x80)) in *.
  destruct (N.ltb_spec c 0x10000) as [H7|H7]; [done|].
  destruct (N.ltb_spec c 0x110000) as [H8|H8]; [|done].
  simpl. intros (s' & Hs' & ->)%cons_opt_Some.
  assert (Utf8.encode s' = Some (map Utf8.byte_of r3)) as Hs2
    by (apply IH; [simpl in Hn; lia|done]).
  assert (0x10000 <= c < 0x110000) as Hc by lia.
  rewrite (encode_cons _ _ _ _ (encode_char_4 _ Hc) Hs2).
  rewrite D1, D2, D3, D4. simpl. by restore_bytes.
Qed.

Lemma byte_of_to_N x : Utf8.byte_of (Byte.to_N x) = x.
Proof. unfold Utf8.byte_of. by rewrite Byte.of_to_N. Qed.

(** Valid UTF-8 has one encoding: decoding and encoding again gives the
    bytes back. *)
Lemma encode_decode data s :
  Utf8.decode data = Some s -> Utf8.encode s = Some data.
Proof.
  unfold Utf8.decode. intros E.
  apply (encode_decode_N (length (map Byte.to_N data))) in E; [|done].
  rewrite E, map_map. f_equal.
  rewrite <- (map_id data) at 2. apply map_ext. intros x. apply byte_of_to_N.
Qed.

Lemma universal_newlines_id s : CR ∉ s -> universal_newlines s = s.
Proof.
  induction s as [|c s IH]; [done|].
  intros [Hc Hs]%not_elem_of_cons. simpl.
  destruct (N.eqb_spec c CR); [done|]. by rewrite IH.
Qed.

Local Open Scope nat_scope.

(** ** The cleaner and its fallback *)

Lemma read_text_Return p w s' w1 :
  read_text p w = (Return s', w1) ->
  fs w1 = fs w
  /\ exists s, Utf8.decode (content_in w p) = Some s
               /\ s' = universal_newlines s.
Proof.
  unfold read_text.
  intros (data & w2 & [E ->]%read_bytes_Return & H)%bind_Return.
  destruct (Utf8.decode (content_in w p)) as [s|]; [|done].
  injection H as <- <-. by eauto.
Qed.

Lemma write_text_Return p s w u w1 :
  write_text p s w = (Return u, w1) ->
  exists data, Utf8.encode s = Some data
               /\ fs w1 = <[p := content_in w p ++ data]> (fs w).
Proof.
  unfold write_text. destruct (Utf8.encode s) as [data|]; [|done].
  intros E%write_bytes_Return. by eauto.
Qed.

Lemma clean_text_file_returns raw_file clean_file :
  returns (TextProcessor.clean_text_file raw_file clean_file).
Proof.
  apply returns_try_except.
  - intros w. by apply (ok_clean_text_file any_world (fun _ => True)).
  - intros e. apply returns_try_except; [|intros; apply returns_ret].
    intros w. apply (ok_try_except any_world); [|intros; apply ok_ret; apply _].
    by apply (ok_copy_raw any_world (fun _ => True)).
Qed.

Lemma clean_attempt_frame raw_file clean_file w :
  frame (fun x => x = clean_file) w
        (snd (TextProcessor.clean_attempt raw_file clean_file w)).
Proof.
  apply (ok_clean_attempt (frame (fun x => x = clean_file))
           (fun x => x = clean_file));
    auto using frame_same, frame_write.
Qed.

Lemma copy_raw_Return raw_file clean_file w u w' :
  raw_file <> clean_file ->
  TextProcessor.copy_raw raw_file clean_file w = (Return u, w') ->
  exists s data,
    Utf8.decode (content_in w raw_file) = Some s
    /\ Utf8.encode (universal_newlines s) = Some data
    /\ fs w' = <[clean_file := data]> (fs w).
Proof.
  intros Hne. unfold TextProcessor.copy_raw.
  intros (? & w1 & [E1 _]%open_read_Return & H)%bind_Return.
  apply bind_Return in H as (? & w2 & E2%open_write_Return & H).
  apply bind_Return in H as (s' & w3 & [E3 (s & Hs & ->)]%read_text_Return & H).
  apply write_text_Return in H as (data & Hd & E4).
  rewrite E1 in E2.
  rewrite (content_in_insert_ne w w2 clean_file raw_file [] E2) in Hs by done.
  exists s, data. split; [done|]. split; [done|].
  assert (content_in w3 clean_file = []) as Hc
    by (unfold content_in; by rewrite E3, E2, lookup_insert_eq).
  rewrite Hc in E4. by rewrite E4, E3, E2, insert_insert_eq.
Qed.

(** C9, as the code has it. The cleaner never lets an exception out.
    When its first attempt fails and the copy that follows goes through,
    the clean file holds the raw text as it is read in text mode, encoded
    again: the bytes of the raw file when it has no carriage return.
    When the copy fails too, the failure is dropped. *)
Theorem clean_text_file_fallback (raw_file clean_file : path) (w : World) :
  (exists w', TextProcessor.clean_text_file raw_file clean_file w
              = (Return tt, w'))
  /\ (forall e w1 u w2,
        TextProcessor.clean_attempt raw_file clean_file w
        = (Raise (Exc e), w1) ->
        TextProcessor.copy_raw raw_file clean_file w1 = (Return u, w2) ->
        raw_file <> clean_file ->
        TextProcessor.clean_text_file raw_file clean_file w = (Return tt, w2)
        /\ exists s data,
             Utf8.decode (content_in w raw_file) = Some s
             /\ Utf8.encode (universal_newlines s) = Some data
             /\ fs w2 !! clean_file = Some data
             /\ (CR ∉ s -> data = content_in w raw_file)).
Proof.
  split.
  - destruct (clean_text_file_returns raw_file clean_file w) as ([] & w' & E).
    by exists w'.
  - intros e w1 [] w2 E1 E2 Hne. split.
    + unfold TextProcessor.clean_text_file, try_except. by rewrite E1, E2.
    + pose proof (clean_attempt_frame raw_file clean_file w) as Hfr.
      rewrite E1 in Hfr. simpl in Hfr.
      apply copy_raw_Return in E2 as (s & data & Hs & Hd & E); [|done].
      exists s, data. unfold content_in in *.
      rewrite Hfr in Hs by done. split; [done|]. split; [done|].
      split; [by rewrite E, lookup_insert_eq|].
      intros Hcr. rewrite universal_newlines_id in Hd by done.
      apply encode_decode in Hs. congruence.
Qed.

Lemma clean_text_file_fallback_witness :
  let w := Sample.clean_dir_locked_once in
  (exists w', TextProcessor.clean_text_file Sample.raw_a Sample.txt_a w
              = (Return tt, w'))
  /\ exists s data,
       Utf8.decode (content_in w Sample.raw_a) = Some s
       /\ Utf8.encode (universal_newlines s) = Some data
       /\ fs (snd (TextProcessor.clean_text_file Sample.raw_a Sample.txt_a w))
             !! Sample.txt_a
          = Some data
       /\ (CR ∉ s -> data = content_in w Sample.raw_a).
Proof.
  pose proof (clean_text_file_fallback Sample.raw_a Sample.txt_a
                Sample.clean_dir_locked_once) as [H1 H2].
  split; [exact H1|].
  refine (proj2 (H2 Sample.disk_error
    (snd (TextProcessor.clean_attempt Sample.raw_a Sample.txt_a
            Sample.clean_dir_locked_once)) tt
    (snd (TextProcessor.clean_text_file Sample.raw_a Sample.txt_a
            Sample.clean_dir_locked_once)) _ _ _)).
  - vm_compute. reflexivity.
  - vm_compute. reflexivity.
  - discriminate.
Defined.

(** C9 as stated fails: the raw file is readable, opening the clean
    file fails in the first attempt and in the copy, and no clean file
    exists afterwards. *)
Lemma clean_file_absent :
  let w := Sample.clean_dir_locked in
  let r := TextProcessor.clean_text_file Sample.raw_a Sample.txt_a w in
  Utf8.decode (content_in w Sample.raw_a) = Some (lit "Hello world" ++ [LF])
  /\ fst (TextProcessor.clean_attempt Sample.raw_a Sample.txt_a w)
     = Raise (Exc Sample.disk_error)
  /\ fst r = Return tt
  /\ fs (snd r) !! Sample.txt_a = None.
Proof. by vm_compute. Qed.

(** The copy goes through text mode: a raw file with CR LF line ends is
    copied with LF line ends. *)
Example copy_raw_translates_newlines :
  let w := Sample.world [(Sample.raw_a, [x61; x0d; x0a; x62])] [] [] in
  fs (snd (TextProcessor.copy_raw Sample.raw_a Sample.txt_a w)) !! Sample.txt_a
  = Some [x61; x0a; x62].
Proof. by vm_compute. Qed.

(** ** Discovery *)

Lemma elem_of_rglob config suffix w p :
  p ∈ (match fst (OCRProcessor.rglob config suffix w) with
       | Return l => l | Raise _ => [] end) <->
  is_Some (fs w !! p)
  /\ PyPath.is_below (OCRProcessor.images_dir config) p = true
  /\ PyStr.endswith suffix (PyPath.name p) = true.
Proof.
  simpl. rewrite list_elem_of_In, filter_In, In_listing, andb_true_iff. tauto.
Qed.

Lemma collect_image_files_run config exts w :
  exists l,
    OCRProcessor.collect_image_files config exts w = (Return l, w)
    /\ forall p, p ∈ l <->
         is_Some (fs w !! p)
         /\ PyPath.is_below (OCRProcessor.images_dir config) p = true
         /\ exists ext,
              ext ∈ exts
              /\ (PyStr.endswith ext (PyPath.name p) = true
                  \/ PyStr.endswith (PyStr.upper ext) (PyPath.name p) = true).
Proof.
  induction exts as [|ext exts (l & El & Hl)].
  - exists []. split; [done|]. intros p. split; [by intros ?%elem_of_nil|].
    by intros (_ & _ & ? & ?%elem_of_nil & _).
  - eexists. split.
    + cbn [OCRProcessor.collect_image_files]. unfold bind. simpl.
      rewrite El. reflexivity.
    + intros p. rewrite !elem_of_app, Hl.
      pose proof (elem_of_rglob config ext w p) as H1.
      pose proof (elem_of_rglob config (PyStr.upper ext) w p) as H2.
      simpl in H1, H2. rewrite H1, H2. split.
      * intros [(?&?&?)|[(?&?&?)|(?&?&e&?&?)]].
        -- split; [done|]. split; [done|]. exists ext. split; [by left|by left].
        -- split; [done|]. split; [done|]. exists ext. split; [by left|by right].
        -- split; [done|]. split; [done|]. exists e. split; [by right|done].
      * intros (Hf & Hb & e & He & Hend).
        apply elem_of_cons in He as [->|He].
        -- destruct Hend; [left|right; left]; done.
        -- right; right. split; [done|]. split; [done|]. by exists e.
Qed.







Example discovery_keeps_first_of_stem :
  discovered Sample.config Sample.same_stem = [Sample.a_jpg].
Proof. by vm_compute. Qed.

(** ** The scenarios of the specification *)

Example scenario_one_success_one_failure :
  let r := OCRProcessor.process_all_images Sample.config
             Sample.second_upload_fails in
  fst r
  = Return (mkResult 2 1 1
              [lit "Google API error processing b.jpg: HttpError 500"]
              [Sample.a_png])
  /\ fs (snd r) !! Sample.raw_a = Some (Sample.b "Hello world" ++ [x0a])
  /\ fs (snd r) !! Sample.txt_a = Some (Sample.b "Hello world")
  /\ fs (snd r) !! [lit "raw_texts"; lit "b.txt"] = None
  /\ drive (snd r) = ∅.
Proof. by vm_compute. Qed.

Example scenario_combination_with_headers :
  let r := TextProcessor.combine_texts_with_headers Sample.config
             (lit "texts") Sample.two_texts in
  let out := [lit "texts"; lit "combined_cleaned_1700000000.txt"] in
  fst r = Return (Some out)
  /\ option_map Utf8.decode (fs (snd r) !! out)
     = Some (Some
         (lit "Combined CLEANED OCR Text Files" ++ [LF]
          ++ lit "Generated: 2024-01-01 00:00:00" ++ [LF]
          ++ lit "Total files: 2" ++ [LF]
          ++ repeat 61%N 80 ++ [LF; LF]
          ++ repeat 61%N 60 ++ [LF]
          ++ lit "FILE 1: x.txt" ++ [LF]
          ++ repeat 61%N 60 ++ [LF; LF]
          ++ lit "foo" ++ [LF]
          ++ [LF] ++ repeat 45%N 40 ++ [LF; LF]
          ++ repeat 61%N 60 ++ [LF]
          ++ lit "FILE 2: y.txt" ++ [LF]
          ++ repeat 61%N 60 ++ [LF; LF]
          ++ lit "[No content or empty file]" ++ [LF])).
Proof. by vm_compute. Qed.

(** * Further properties of the code *)

(** ** Cleaning keeps the text *)

Lemma split_scan_replace old new w s :
  PyStr.isspace old = true -> PyStr.isspace new = true ->
  PyStr.split_scan w (PyStr.replace old new s) = PyStr.split_scan w s.
Proof.
  intros Ho Hn. revert w. induction s as [|c s IH]; intros w; [done|].
  cbn [PyStr.replace map PyStr.split_scan]. fold (PyStr.replace old new s).
  destruct (N.eqb_spec c old) as [->|Hne].
  - by rewrite Ho, Hn, IH.
  - destruct (PyStr.isspace c); by rewrite IH.
Qed.

(** The two [replace] calls of lines 31 change nothing that [split]
    would not absorb. *)
Lemma clean_text_join_split s :
  clean_text s = PyStr.join [SP] (PyStr.split_ws s).
Proof.
  unfold clean_text, PyStr.split_ws. by rewrite !split_scan_replace.
Qed.

Lemma concat_emit w rest :
  concat (PyStr.emit w rest) = w ++ concat rest.
Proof. by destruct w. Qed.

Lemma concat_split_scan w s :
  concat (PyStr.split_scan w s)
  = w ++ List.filter (fun c => negb (PyStr.isspace c)) s.
Proof.
  revert w. induction s as [|c s IH]; intros w; simpl.
  - by rewrite concat_emit.
  - destruct (PyStr.isspace c); simpl.
    + by rewrite concat_emit, IH.
    + by rewrite IH, <- app_assoc.
Qed.

Lemma filter_nonblank_id u :
  nonblank u -> List.filter (fun c => negb (PyStr.isspace c)) u = u.
Proof.
  induction 1 as [|c u Hc Hu IH]; simpl; [done|]. by rewrite Hc, IH.
Qed.

Lemma filter_join_words ws :
  Forall is_word ws ->
  List.filter (fun c => negb (PyStr.isspace c)) (PyStr.join [SP] ws)
  = concat ws.
Proof.
  induction ws as [|u ws IH]; intros Hws; [done|].
  inversion Hws as [|? ? [_ Hu] Hws']; subst.
  destruct ws as [|v ws].
  - simpl. by rewrite app_nil_r, filter_nonblank_id.
  - rewrite join_cons by done. rewrite !List.filter_app, IH by done.
    by rewrite filter_nonblank_id.
Qed.

(** X1. Cleaning loses no text: the words of the output are the words of
    the input, and so are the non-blank characters, in the same order. *)
Theorem clean_text_keeps_words (s : list N) :
  PyStr.split_ws (clean_text s) = PyStr.split_ws s
  /\ List.filter (fun c => negb (PyStr.isspace c)) (clean_text s)
     = List.filter (fun c => negb (PyStr.isspace c)) s.
Proof.
  assert (Forall is_word (PyStr.split_ws s)) as Hws
    by (apply split_scan_words; constructor).
  rewrite clean_text_join_split. split.
  - by apply split_ws_join.
  - rewrite filter_join_words by done.
    unfold PyStr.split_ws. by rewrite concat_split_scan.
Qed.

Lemma join_split_scan_length w s :
  (length (PyStr.join [SP] (PyStr.split_scan w s)) <= length w + length s)%nat.
Proof.
  revert w. induction s as [|c s IH]; intros w; simpl.
  - destruct w; simpl; lia.
  - destruct (PyStr.isspace c).
    + specialize (IH []). simpl in IH.
      destruct w as [|d w]; [simpl; lia|]. cbn [PyStr.emit].
      destruct (PyStr.split_scan [] s) as [|v vs] eqn:E; [simpl; lia|].
      rewrite join_cons by done. rewrite !length_app. simpl in *. lia.
    + specialize (IH (w ++ [c])). rewrite length_app in IH. simpl in IH. lia.
Qed.

Lemma split_scan_nil w s :
  PyStr.split_scan w s = [] <->
  w = [] /\ Forall (fun c => PyStr.isspace c = true) s.
Proof.
  revert w. induction s as [|c s IH]; intros w; simpl.
  - destruct w; split; try done; [by intros [? _]..].
  - destruct (PyStr.isspace c) eqn:Hc.
    + destruct w as [|d w]; simpl.
      * rewrite IH. split; [intros [_ H]; by split; [|constructor]|].
        intros [_ H]. by inversion H.
      * split; [done|by intros [? _]].
    + rewrite IH. split; [intros [E _]; by apply app_eq_nil in E as [_ ?]|].
      intros [_ H]. inversion H; congruence.
Qed.

(** X2. Cleaning never lengthens the text, and it gives the empty text
    exactly for an input made of blanks only. *)
Theorem clean_text_shrinks (s : list N) :
  (length (clean_text s) <= length s)%nat
  /\ (clean_text s = [] <-> Forall (fun c => PyStr.isspace c = true) s).
Proof.
  rewrite clean_text_join_split. split.
  - apply (join_split_scan_length [] s).
  - unfold PyStr.split_ws.
    assert (Forall is_word (PyStr.split_scan [] s)) as Hws
      by (apply split_scan_words; constructor).
    split.
    + intros E. apply (split_scan_nil [] s).
      destruct (PyStr.split_scan [] s) as [|u ws]; [done|].
      inversion Hws as [|? ? [Hne _] _]; subst.
      destruct ws; [done|]. rewrite join_cons in E by done.
      by apply app_eq_nil in E as [? _].
    + intros H. by rewrite (proj2 (split_scan_nil [] s) (conj eq_refl H)).
Qed.

(** ** The list of discovered images *)

Lemma unique_by_stem_sublist seen l :
  OCRProcessor.unique_by_stem seen l `sublist_of` l.
Proof.
  revert seen. induction l as [|f l IH]; intros seen; simpl; [done|].
  destruct (decide (PyPath.stem f ∈ seen)).
  - by apply sublist_cons.
  - by apply sublist_skip.
Qed.

Lemma StronglySorted_sublist {A} (R : relation A) (l1 l2 : list A) :
  l1 `sublist_of` l2 -> StronglySorted R l2 -> StronglySorted R l1.
Proof.
  induction 1 as [|x l1 l2 Hsub IH|x l1 l2 Hsub IH]; intros Hs; [done|..].
  - apply StronglySorted_cons in Hs as [Hall Hs].
    apply StronglySorted_cons. split; [|by apply IH].
    rewrite Forall_forall in Hall |- *. intros y Hy.
    apply Hall. by eapply elem_of_sublist.
  - apply StronglySorted_cons in Hs as [_ Hs]. by apply IH.
Qed.

Lemma unique_by_stem_stems seen l :
  NoDup (map PyPath.stem (OCRProcessor.unique_by_stem seen l))
  /\ forall p, p ∈ OCRProcessor.unique_by_stem seen l -> PyPath.stem p ∉ seen.
Proof.
  revert seen. induction l as [|f l IH]; intros seen; simpl.
  - split; [constructor|]. by intros p ?%elem_of_nil.
  - destruct (decide (PyPath.stem f ∈ seen)) as [Hin|Hnin]; [apply IH|].
    destruct (IH ({[PyPath.stem f]} ∪ seen)) as [Hnd Hout]. split.
    + simpl. constructor; [|done].
      intros Hm. apply list_elem_of_In, in_map_iff in Hm as (q & Eq & Hq).
      apply list_elem_of_In in Hq.
      apply Hout in Hq. apply Hq, elem_of_union. left.
      by apply elem_of_singleton.
    + intros p [->|Hp]%elem_of_cons; [done|].
      apply Hout in Hp. intros Hs. apply Hp, elem_of_union. by right.
Qed.

Lemma discovered_unfold config w :
  exists l,
    (forall p, p ∈ l <-> image_candidate config w p)
    /\ discovered config w
       = match l with
         | [] => []
         | _ => OCRProcessor.unique_by_stem ∅ (PyPath.sorted l)
         end.
Proof.
  unfold discovered, OCRProcessor.get_image_files, bind.
  destruct (collect_image_files_run config
              (OCRConfig.supported_extensions config) w) as (l & -> & Hl).
  exists l. split; [exact Hl|]. by destruct l.
Qed.

(** X3. Discovery returns its paths in increasing order, no two of them
    with the same stem (so no two artifacts of a run share a name). *)
Theorem discovered_sorted_distinct (config : OCRConfig.t) (w : World) :
  StronglySorted PyPath.le (discovered config w)
  /\ NoDup (map PyPath.stem (discovered config w)).
Proof.
  destruct (discovered_unfold config w) as (l & _ & ->).
  destruct l as [|f l]; [split; constructor|]. split.
  - eapply StronglySorted_sublist; [apply unique_by_stem_sublist|].
    apply sorted_StronglySorted.
  - apply unique_by_stem_stems.
Qed.



Example discovered_sample_sorted :
  discovered Sample.config Sample.second_upload_fails
  = [Sample.a_png; Sample.b_jpg].
Proof. by vm_compute. Qed.

(** ** The result of a batch run *)

Local Open Scope nat_scope.

Lemma yields_ret {A} (V : A -> Prop) a : V a -> yields V (ret a).
Proof. intros Ha w a' w' [= <- _]. done. Qed.

Lemma yields_raise {A} (V : A -> Prop) e : yields V (@raise A e).
Proof. intros w a w' E. discriminate. Qed.

Lemma yields_bind {A B} (V : B -> Prop) (m : M A) (k : A -> M B) :
  (forall a, yields V (k a)) -> yields V (bind m k).
Proof.
  intros Hk w b w' (a & w1 & _ & E)%bind_Return. by eapply Hk.
Qed.

Lemma extract_text_from_image_result config p w r w' :
  OCRProcessor.extract_text_from_image config p w = (Return r, w') ->
  r = (true, None) \/ exists e, r = (false, Some (failure_message p e)).
Proof.
  unfold OCRProcessor.extract_text_from_image, try_except.
  match goal with |- context [match ?m w with _ => _ end] =>
    set (body := m)
  end.
  assert (yields (fun r => r = (true, None)) body) as Hy.
  { unfold body. repeat (apply yields_bind; intros ?).
    destruct (_ && _); [by apply yields_ret|].
    repeat (apply yields_bind; intros ?).
    destruct (Utf8.decode _); [|apply yields_raise].
    repeat (apply yields_bind; intros ?). by apply yields_ret. }
  destruct (body w) as [[r0|[e|c]] w1] eqn:E.
  - intros [= <- <-]. left. by eapply Hy.
  - destruct e as [m|m]; intros [= <- <-]; right;
      [by exists (HttpError m)|by exists (OtherError m)].
  - done.
Qed.

Lemma failure_message_not_nil p e : failure_message p e <> [].
Proof. by destruct e. Qed.

Lemma process_loop_errors config files t w t' w' :
  OCRProcessor.process_loop config files t w = (Return t', w') ->
  length (OCRProcessor.t_errors t') + OCRProcessor.t_failed t
  = length (OCRProcessor.t_errors t) + OCRProcessor.t_failed t'
  /\ forall m, m ∈ OCRProcessor.t_errors t' ->
       m ∈ OCRProcessor.t_errors t
       \/ exists p e, p ∈ files /\ m = failure_message p e.
Proof.
  revert t w. induction files as [|f files IH]; intros t w; simpl.
  - intros [= <- <-]. split; [done|]. by left.
  - unfold bind.
    destruct (OCRProcessor.extract_text_from_image config f w)
      as [[r|e] w1] eqn:Ex; [|done].
    intros E. apply IH in E as [E1 E2].
    apply extract_text_from_image_result in Ex as [->|[e ->]];
      simpl in E1, E2.
    + split; [lia|]. intros m Hm. destruct (E2 m Hm) as [?|(p & e & ? & ?)];
        [by left|]. right. exists p, e. split; [by right|done].
    + pose proof (failure_message_not_nil f e) as Hne.
      destruct (failure_message f e) as [|c msg] eqn:Em; [done|].
      rewrite length_app in E1. simpl in E1. split; [lia|].
      intros m Hm. destruct (E2 m Hm) as [Hin|(p & e' & ? & ?)].
      * apply elem_of_app in Hin as [?|Hin]; [by left|].
        apply list_elem_of_singleton in Hin as ->.
        right. exists f, e. split; [by left|done].
      * right. exists p, e'. split; [by right|done].
Qed.

(** X5. Every file that fails leaves exactly one message in [errors],
    and each message is the one built for a discovered file from the
    exception that stopped it. *)
Theorem errors_match_failures (config : OCRConfig.t) (w w' : World)
    (r : ProcessingResult) :
  OCRProcessor.process_all_images config w = (Return r, w') ->
  length (errors r) = failed r
  /\ forall m, m ∈ errors r ->
       exists p e, p ∈ discovered config w /\ m = failure_message p e.
Proof.
  intros E. apply process_all_images_run in E.
  inversion E as [|w1 Hw1 Hs Hd|w1 t w2 w3 Hw1 Hs Hd Hloop Hcomb]; subst.
  - split; [done|]. by intros m ?%elem_of_nil.
  - apply process_loop_errors in Hloop as [E1 E2]. simpl in *.
    split; [lia|]. intros m Hm.
    destruct (E2 m Hm) as [?%elem_of_nil|?]; done.
Qed.

Lemma process_loop_processed config files t w t' w' :
  OCRProcessor.process_loop config files t w = (Return t', w') ->
  exists l, OCRProcessor.t_processed_files t'
            = OCRProcessor.t_processed_files t ++ l
            /\ l `sublist_of` files.
Proof.
  revert t w. induction files as [|f files IH]; intros t w; simpl.
  - intros [= <- <-]. exists []. by rewrite app_nil_r.
  - unfold bind.
    destruct (OCRProcessor.extract_text_from_image config f w)
      as [[[[] msg]|e] w1] eqn:Ex; [| |done]; intros E;
      apply IH in E as (l & -> & Hl); simpl.
    + exists (f :: l). rewrite <- app_assoc. split; [done|].
      by apply sublist_skip.
    + exists l. split; [done|]. by apply sublist_cons.
Qed.

(** X6. The processed files of a result are discovered files, in the
    order of discovery and each at most once; [total] is the number of
    discovered files. *)
Theorem processed_files_of_discovered (config : OCRConfig.t) (w w' : World)
    (r : ProcessingResult) :
  OCRProcessor.process_all_images config w = (Return r, w') ->
  processed_files r `sublist_of` discovered config w
  /\ total r = length (discovered config w).
Proof.
  intros E. apply process_all_images_run in E.
  inversion E as [|w1 Hw1 Hs Hd|w1 t w2 w3 Hw1 Hs Hd Hloop Hcomb]; subst.
  - rewrite Hd. split; [done|done].
  - apply process_loop_processed in Hloop as (l & El & Hl). simpl in *.
    by rewrite El.
Qed.

Lemma errors_match_failures_witness :
  length (errors (mkResult 2 1 1
            [lit "Google API error processing b.jpg: HttpError 500"]
            [Sample.a_png])) = 1
  /\ forall m,
       m ∈ [lit "Google API error processing b.jpg: HttpError 500"] ->
       exists p e, p ∈ discovered Sample.config Sample.second_upload_fails
                   /\ m = failure_message p e.
Proof.
  apply (errors_match_failures Sample.config Sample.second_upload_fails
           (snd (OCRProcessor.process_all_images Sample.config
                   Sample.second_upload_fails))).
  vm_compute. reflexivity.
Defined.

Lemma processed_files_of_discovered_witness :
  [Sample.a_png] `sublist_of` discovered Sample.config Sample.second_upload_fails
  /\ 2 = length (discovered Sample.config Sample.second_upload_fails).
Proof.
  apply (processed_files_of_discovered Sample.config
           Sample.second_upload_fails
           (snd (OCRProcessor.process_all_images Sample.config
                   Sample.second_upload_fails))
           (mkResult 2 1 1
              [lit "Google API error processing b.jpg: HttpError 500"]
              [Sample.a_png])).
  vm_compute. reflexivity.
Defined.



(** ** The files a run touches *)



(** ** One image, step by step *)

Lemma bind_inv {A B} (m : M A) (k : A -> M B) w o w' :
  bind m k w = (o, w') ->
  (exists a w1, m w = (Return a, w1) /\ k a w1 = (o, w'))
  \/ (exists e, m w = (Raise e, w') /\ o = Raise e).
Proof.
  unfold bind. destruct (m w) as [[a|e] w1]; [by eauto|].
  intros [= <- <-]. by eauto.
Qed.

Lemma unchanged_refl w : unchanged w w.
Proof. by repeat split. Qed.

Lemma unchanged_trans w1 w2 w3 :
  unchanged w1 w2 -> unchanged w2 w3 -> unchanged w1 w3.
Proof.
  intros (F1 & D1 & N1 & T1 & R1) (F2 & D2 & N2 & T2 & R2).
  repeat split; congruence.
Qed.

Lemma fault_unchanged w o w' : fault w = (o, w') -> unchanged w w'.
Proof.
  unfold fault. destruct (faults w) as [|[e|] rest]; intros [= <- <-];
    by repeat split.
Qed.

Lemma open_read_unchanged p w o w' :
  open_read p w = (o, w') -> unchanged w w'.
Proof.
  unfold open_read. intros [(? & w1 & E1 & E2)|(e & E1 & _)]%bind_inv;
    [|by apply fault_unchanged in E1].
  apply fault_unchanged in E1. eapply unchanged_trans; [exact E1|].
  unfold bind, get in E2. destruct (fs w1 !! p); injection E2 as <- <-;
    apply unchanged_refl.
Qed.

Lemma read_bytes_unchanged p w o w' :
  read_bytes p w = (o, w') ->
  unchanged w w' /\ forall data, o = Return data -> data = content_in w p.
Proof.
  unfold read_bytes. intros [(? & w1 & E1 & E2)|(e & E1 & ->)]%bind_inv.
  - apply fault_unchanged in E1. unfold get in E2. injection E2 as <- <-.
    split; [done|]. intros data [= <-]. unfold content_in.
    by destruct E1 as [-> _].
  - apply fault_unchanged in E1. split; [done|]. by intros data.
Qed.

Lemma open_write_inv p w o w' :
  open_write p w = (o, w') ->
  (o = Return tt /\ fs w' = <[p := []]> (fs w) /\ remote_same w w')
  \/ ((exists e, o = Raise e) /\ unchanged w w').
Proof.
  unfold open_write. intros [(? & w1 & E1 & E2)|(e & E1 & ->)]%bind_inv.
  - apply fault_unchanged in E1 as (F & D).
    unfold modify in E2. injection E2 as <- <-. left. simpl.
    by rewrite F.
  - apply fault_unchanged in E1. right. by eauto.
Qed.

Lemma write_bytes_inv p data w o w' :
  write_bytes p data w = (o, w') ->
  (o = Return tt /\ fs w' = <[p := content_in w p ++ data]> (fs w)
   /\ remote_same w w')
  \/ ((exists e, o = Raise e) /\ unchanged w w').
Proof.
  unfold write_bytes. intros [(? & w1 & E1 & E2)|(e & E1 & ->)]%bind_inv.
  - apply fault_unchanged in E1 as (F & D).
    unfold modify in E2. injection E2 as <- <-. left. simpl.
    unfold content_in. by rewrite F.
  - apply fault_unchanged in E1. right. by eauto.
Qed.

Lemma write_text_inv p s w o w' :
  write_text p s w = (o, w') ->
  (exists data, Utf8.encode s = Some data /\ o = Return tt
     /\ fs w' = <[p := content_in w p ++ data]> (fs w) /\ remote_same w w')
  \/ ((exists e, o = Raise e) /\ unchanged w w').
Proof.
  unfold write_text. destruct (Utf8.encode s) as [data|].
  - intros [(-> & F & D)|H]%write_bytes_inv; [left|by right]. by eauto.
  - intros [= <- <-]. right. split; [by eauto|apply unchanged_refl].
Qed.

Lemma upload_inv p imgname w o w' :
  upload p imgname w = (o, w') ->
  (o = Return (next_id w) /\ fs w' = fs w
   /\ drive w' = <[next_id w := recognise w (content_in w p)]> (drive w)
   /\ next_id w' = (next_id w + 1)%N
   /\ trace w' = trace w ++ [EvUpload imgname (next_id w)]
   /\ recognise w' = recognise w)
  \/ ((exists e, o = Raise e) /\ unchanged w w').
Proof.
  unfold upload. intros [(? & w1 & E1 & E2)|(e & E1 & ->)]%bind_inv;
    [|apply open_read_unchanged in E1; right; by eauto].
  apply open_read_unchanged in E1.
  apply bind_inv in E2 as [(img & w2 & E2 & E3)|(e & E2 & ->)];
    [|apply read_bytes_unchanged in E2 as [E2 _]; right;
      split; [by eauto|by eapply unchanged_trans]].
  apply read_bytes_unchanged in E2 as [E2 Himg].
  specialize (Himg img eq_refl).
  assert (unchanged w w2) as U2 by (by eapply unchanged_trans).
  assert (img = content_in w p) as ->.
  { rewrite Himg. unfold content_in. by destruct E1 as [-> _]. }
  apply bind_inv in E3 as [(? & w3 & E3 & E4)|(e & E3 & ->)];
    [|apply fault_unchanged in E3; right;
      split; [by eauto|by eapply unchanged_trans]].
  apply fault_unchanged in E3.
  destruct (unchanged_trans _ _ _ U2 E3) as (F & D & N & T & R).
  injection E4 as <- <-. left. simpl. by rewrite F, D, N, T, R.
Qed.

Lemma export_media_inv id w o w' :
  export_media id w = (o, w') ->
  fs w' = fs w /\ drive w' = drive w /\ next_id w' = next_id w
  /\ recognise w' = recognise w
  /\ ((exists data, o = Return data /\ drive w !! id = Some data
                    /\ trace w' = trace w ++ [EvExport id])
      \/ ((exists e, o = Raise e)
          /\ (trace w' = trace w \/ trace w' = trace w ++ [EvExport id]))).
Proof.
  unfold export_media. intros [(? & w1 & E1 & E2)|(e & E1 & ->)]%bind_inv.
  - apply fault_unchanged in E1 as (F & D & N & T & R).
    unfold bind, modify, get in E2. simpl in E2. rewrite D in E2.
    destruct (drive w !! id) as [data|] eqn:El; injection E2 as <- <-;
      simpl; rewrite F, D, N, T, R; repeat split; try done.
    + left. by eauto.
    + right. split; [by eauto|by right].
  - apply fault_unchanged in E1 as (F & D & N & T & R).
    repeat split; try done. right. split; [by eauto|by left].
Qed.

Lemma delete_file_inv id w o w' :
  delete_file id w = (o, w') ->
  (o = Return tt /\ fs w' = fs w /\ drive w' = delete id (drive w)
   /\ next_id w' = next_id w /\ trace w' = trace w ++ [EvDelete id]
   /\ recognise w' = recognise w)
  \/ ((exists e, o = Raise e) /\ unchanged w w').
Proof.
  unfold delete_file. intros [(? & w1 & E1 & E2)|(e & E1 & ->)]%bind_inv.
  - apply fault_unchanged in E1 as (F & D & N & T & R).
    unfold modify in E2. injection E2 as <- <-. left. simpl.
    by rewrite F, D, N, T, R.
  - apply fault_unchanged in E1. right. by eauto.
Qed.

#[local] Instance remote_same_preorder : PreOrder remote_same.
Proof.
  split.
  - by intros w.
  - intros w1 w2 w3 (D1 & N1 & T1 & R1) (D2 & N2 & T2 & R2).
    repeat split; congruence.
Qed.

Lemma clean_text_file_remote raw_file clean_file w :
  remote_same w (snd (TextProcessor.clean_text_file raw_file clean_file w)).
Proof.
  by apply (ok_clean_text_file remote_same (fun _ => True)).
Qed.

Lemma clean_text_file_frame raw_file clean_file w :
  frame (fun x => x = clean_file) w
        (snd (TextProcessor.clean_text_file raw_file clean_file w)).
Proof.
  apply (ok_clean_text_file (frame (fun x => x = clean_file))
           (fun x => x = clean_file));
    auto using frame_same, frame_write.
Qed.

Lemma image_steps_yields config p :
  yields (fun r => r = (true, None)) (image_steps config p).
Proof.
  unfold image_steps. repeat (apply yields_bind; intros ?).
  destruct (_ && _); [by apply yields_ret|].
  repeat (apply yields_bind; intros ?).
  destruct (Utf8.decode _); [|apply yields_raise].
  repeat (apply yields_bind; intros ?). by apply yields_ret.
Qed.

Lemma extract_text_from_image_steps config p w r w' :
  OCRProcessor.extract_text_from_image config p w = (Return r, w') ->
  (r = (true, None) /\ image_steps config p w = (Return (true, None), w'))
  \/ exists e, r = (false, Some (failure_message p e))
               /\ image_steps config p w = (Raise (Exc e), w').
Proof.
  unfold OCRProcessor.extract_text_from_image, try_except.
  match goal with |- context [match ?m w with _ => _ end] =>
    change m with (image_steps config p)
  end.
  destruct (image_steps config p w) as [[r0|[e|c]] w1] eqn:E.
  - intros [= <- <-]. left.
    by rewrite (image_steps_yields config p _ _ _ E).
  - destruct e as [m|m]; intros [= <- <-]; right;
      [by exists (HttpError m)|by exists (OtherError m)].
  - done.
Qed.

(** What a step that raised has left behind. *)
Lemma image_steps_Raise config p w e w' :
  image_steps config p w = (Raise e, w') ->
  unchanged w w'
  \/ (drive w' = uploaded w p
      /\ next_id w' = (next_id w + 1)%N
      /\ (trace w' = trace w ++ [EvUpload (PyPath.name p) (next_id w)]
          \/ trace w' = trace w ++ [EvUpload (PyPath.name p) (next_id w);
                                    EvExport (next_id w)])
      /\ frame (fun x => x = OCRProcessor.artifact
                              (OCRProcessor.raw_texts_dir config)
                              (PyPath.stem p)) w w').
Proof.
  unfold image_steps. cbv zeta.
  set (raw := OCRProcessor.artifact (OCRProcessor.raw_texts_dir config) _).
  set (txt := OCRProcessor.artifact (OCRProcessor.texts_dir config) _).
  intros [(t & w1 & E1 & H)|(? & E1 & _)]%bind_inv; [|discriminate].
  injection E1 as <- <-.
  apply bind_inv in H as [(r & w1 & E1 & H)|(? & E1 & _)]; [|discriminate].
  injection E1 as <- <-.
  destruct (_ && _); [discriminate|].
  apply bind_inv in H as [(id & w1 & E1 & H)|(? & E1 & _)].
  2: { apply upload_inv in E1 as [[? _]|[_ U]]; [done|by left]. }
  apply upload_inv in E1 as [([= ->] & F1 & D1 & N1 & T1 & R1)|[[? ?] _]];
    [|done].
  right.
  apply bind_inv in H as [(exported & w2 & E2 & H)|(? & E2 & _)].
  2: { apply export_media_inv in E2 as (F2 & D2 & N2 & R2 & [(? & ? & _)|[_ T2]]);
         [done|].
       split; [by rewrite D2|]. split; [by rewrite N2|]. split.
       - destruct T2 as [->| ->]; rewrite T1; [by left|right].
         by rewrite <- app_assoc.
       - apply frame_same. by rewrite F2. }
  apply export_media_inv in E2 as (F2 & D2 & N2 & R2 & [(? & _ & _ & T2)|[[? ?] _]]);
    [|done].
  assert (trace w2 = trace w ++ [EvUpload (PyPath.name p) (next_id w);
                                 EvExport (next_id w)]) as T2'
    by (by rewrite T2, T1, <- app_assoc).
  assert (forall w3, remote_same w2 w3 ->
            drive w3 = uploaded w p /\ next_id w3 = (next_id w + 1)%N
            /\ trace w3 = trace w ++ [EvUpload (PyPath.name p) (next_id w);
                                      EvExport (next_id w)]) as Hrem.
  { intros w3 (D3 & N3 & T3 & _). by rewrite D3, N3, T3, D2, N2. }
  destruct (Utf8.decode exported) as [content|].
  2: { injection H as _ <-. destruct (Hrem w2) as (? & ? & ?); [done|].
       repeat split; [done|done|by right|].
       apply frame_same. by rewrite F2. }
  apply bind_inv in H as [(? & w3 & E3 & H)|(? & E3 & _)].
  2: { apply open_write_inv in E3 as [[? _]|[_ [F3 Rm]]]; [done|].
       destruct (Hrem _ Rm) as (? & ? & ?).
       repeat split; [done|done|by right|].
       apply frame_same. by rewrite F3, F2. }
  apply open_write_inv in E3 as [(_ & F3 & Rm3)|[[? ?] _]]; [|done].
  assert (frame (fun x => x = raw) w w3) as Fr3.
  { intros q Hq. rewrite F3, lookup_insert_ne, F2, F1; [done|].
    by intros ->. }
  apply bind_inv in H as [(? & w4 & E4 & H)|(? & E4 & _)].
  2: { apply write_text_inv in E4 as [(? & _ & ? & _)|[_ [F4 Rm]]]; [done|].
       destruct (Hrem w') as (? & ? & ?); [by etrans|].
       repeat split; [done|done|by right|].
       intros q Hq. by rewrite F4, Fr3. }
  apply write_text_inv in E4 as [(data & _ & _ & F4 & Rm4)|[[? ?] _]]; [|done].
  assert (frame (fun x => x = raw) w w4) as Fr4.
  { intros q Hq. rewrite F4, lookup_insert_ne, Fr3; [done|done|].
    by intros ->. }
  apply bind_inv in H as [(? & w5 & E5 & H)|(? & E5 & _)].
  2: { apply delete_file_inv in E5 as [(? & _)|[_ [F5 Rm]]]; [done|].
       destruct (Hrem w') as (? & ? & ?); [by repeat (etrans; [eassumption|])|].
       repeat split; [done|done|by right|].
       intros q Hq. by rewrite F5, Fr4. }
  apply bind_inv in H as [(? & w6 & E6 & H)|(? & E6 & _)]; [discriminate|].
  destruct (clean_text_file_returns raw txt w5) as (? & ? & Hret).
  by rewrite E6 in Hret.
Qed.

(** What the steps have done when none of them raised. *)
Lemma image_steps_Return config p w r w' :
  image_steps config p w = (Return r, w') ->
  (already_processed config w p /\ w' = w)
  \/ (~ already_processed config w p
      /\ exists content data,
           Utf8.decode (recognise w (content_in w p)) = Some content
           /\ Utf8.encode (strip_metadata content) = Some data
           /\ drive w' = delete (next_id w) (drive w)
           /\ next_id w' = (next_id w + 1)%N
           /\ trace w' = trace w ++ [EvUpload (PyPath.name p) (next_id w);
                                     EvExport (next_id w);
                                     EvDelete (next_id w)]
           /\ (OCRProcessor.raw_texts_dir config
               <> OCRProcessor.texts_dir config ->
               fs w' !! OCRProcessor.artifact
                          (OCRProcessor.raw_texts_dir config) (PyPath.stem p)
               = Some data)).
Proof.
  unfold image_steps. cbv zeta.
  set (raw := OCRProcessor.artifact (OCRProcessor.raw_texts_dir config) _).
  set (txt := OCRProcessor.artifact (OCRProcessor.texts_dir config) _).
  intros (t & w1 & [= <- <-] & H)%bind_Return.
  apply bind_Return in H as (t' & w1 & [= <- <-] & H).
  destruct (_ && _) eqn:Eskip.
  { injection H as _ <-. left. split; [|done].
    apply andb_prop in Eskip as [Ht Hr]. split; by eapply bool_decide_eq_true_1. }
  right. split.
  { intros [Ht Hr]. fold txt in Ht. fold raw in Hr.
    by rewrite !bool_decide_eq_true_2 in Eskip. }
  apply bind_Return in H as (id & w1 & E1 & H).
  apply upload_inv in E1 as [([= ->] & F1 & D1 & N1 & T1 & R1)|[[? ?] _]];
    [|done].
  apply bind_Return in H as (exported & w2 & E2 & H).
  apply export_media_inv in E2
    as (F2 & D2 & N2 & R2 & [(? & [= <-] & El & T2)|[[? ?] _]]); [|done].
  rewrite D1, lookup_insert_eq in El. injection El as <-.
  destruct (Utf8.decode _) as [content|] eqn:Ec; [|discriminate].
  apply bind_Return in H as (? & w3 & E3 & H).
  apply open_write_inv in E3 as [(_ & F3 & D3 & N3 & T3 & R3)|[[? ?] _]];
    [|done].
  apply bind_Return in H as (? & w4 & E4 & H).
  apply write_text_inv in E4
    as [(data & Hdata & _ & F4 & D4 & N4 & T4 & R4)|[[? ?] _]]; [|done].
  rewrite (content_in_insert_eq _ _ _ _ F3) in F4. simpl in F4.
  apply bind_Return in H as (? & w5 & E5 & H).
  apply delete_file_inv in E5
    as [(_ & F5 & D5 & N5 & T5 & R5)|[[? ?] _]]; [|done].
  apply bind_Return in H as (? & w6 & E6 & [= _ <-]).
  pose proof (clean_text_file_remote raw txt w5) as (D6 & N6 & T6 & R6).
  pose proof (clean_text_file_frame raw txt w5) as F6.
  rewrite E6 in D6, N6, T6, F6. simpl in D6, N6, T6, F6.
  exists content, data. repeat split; [done| | | |].
  - rewrite D6, D5, D4, D3, D2, D1. apply delete_insert_eq.
  - by rewrite N6, N5, N4, N3, N2, N1.
  - rewrite T6, T5, T4, T3, T2, T1. by rewrite <- !app_assoc.
  - intros Hdirs. rewrite F6, F5, F4, lookup_insert_eq; [done|].
    by intros [? _]%artifact_inj.
Qed.


(** X10. A success cleans up after itself.  When an image that was not
    processed before succeeds, the recognised text decoded as UTF-8, the
    raw artifact holds it without its two metadata lines, and the remote
    side saw exactly an upload, an export and a deletion of one
    document, which is no longer on the drive. *)
Theorem processed_image_cleans_up config p w w' :
  OCRProcessor.extract_text_from_image config p w
  = (Return (true, None), w') ->
  ~ already_processed config w p ->
  exists content data,
    Utf8.decode (recognise w (content_in w p)) = Some content
    /\ Utf8.encode (strip_metadata content) = Some data
    /\ drive w' = delete (next_id w) (drive w)
    /\ next_id w' = (next_id w + 1)%N
    /\ trace w' = trace w ++ [EvUpload (PyPath.name p) (next_id w);
                              EvExport (next_id w);
                              EvDelete (next_id w)]
    /\ (OCRProcessor.raw_texts_dir config <> OCRProcessor.texts_dir config ->
        fs w' !! OCRProcessor.artifact
                   (OCRProcessor.raw_texts_dir config) (PyPath.stem p)
        = Some data).
Proof.
  intros [[_ H]|(e & ? & _)]%extract_text_from_image_steps Hnew; [|done].
  by apply image_steps_Return in H as [[? _]|[_ H]].
Qed.


Lemma processed_image_cleans_up_witness :
  let w := Scenario.one_image in
  let w' := snd (OCRProcessor.extract_text_from_image Sample.config
                   Sample.a_png w) in
  exists content data,
    Utf8.decode (recognise w (content_in w Sample.a_png)) = Some content
    /\ Utf8.encode (strip_metadata content) = Some data
    /\ drive w' = delete (next_id w) (drive w)
    /\ next_id w' = (next_id w + 1)%N
    /\ trace w' = trace w ++ [EvUpload (lit "a.png") (next_id w);
                              EvExport (next_id w);
                              EvDelete (next_id w)]
    /\ (OCRProcessor.raw_texts_dir Sample.config
        <> OCRProcessor.texts_dir Sample.config ->
        fs w' !! Sample.raw_a = Some data).
Proof.
  intros w w'.
  apply (processed_image_cleans_up Sample.config Sample.a_png w w').
  - vm_compute. reflexivity.
  - intros [[x Hx] _]. vm_compute in Hx. discriminate.
Defined.

(** The failed deletion of the scenario leaves document 0 on the drive,
    with the raw artifact written and no clean artifact. *)
Example delete_fails_scenario :
  let r := OCRProcessor.extract_text_from_image Sample.config Sample.a_png
             Scenario.delete_fails in
  fst r = Return (false,
                  Some (lit "Google API error processing a.png: HttpError 500"))
  /\ is_Some (drive (snd r) !! 0%N)
  /\ fs (snd r) !! Sample.raw_a = Some (Sample.b "Hello world" ++ [x0a])
  /\ fs (snd r) !! Sample.txt_a = None
  /\ trace (snd r) = [EvUpload (lit "a.png") 0; EvExport 0].
Proof. vm_compute. repeat split. by eexists. Qed.

(** ** Encoding and decoding again *)

Local Open Scope N_scope.

Lemma to_N_byte_of n : n < 256 -> Byte.to_N (Utf8.byte_of n) = n.
Proof.
  intros H. unfold Utf8.byte_of.
  destruct (Byte.of_N n) as [b|] eqn:E.
  - simpl. by apply Byte.to_of_N.
  - apply Byte.of_N_None_iff in E. lia.
Qed.

Lemma split64 c :
  exists q d, c = q * 64 + d /\ d < 64 /\ c / 64 = q /\ c mod 64 = d.
Proof.
  exists (c / 64), (c mod 64). repeat split.
  - rewrite N.mul_comm. apply N.div_mod. lia.
  - apply N.mod_upper_bound. lia.
Qed.

Ltac by_cases_N :=
  repeat match goal with
         | |- context [?a <? ?b] => destruct (N.ltb_spec a b); try lia
         | |- context [?a <=? ?b] => destruct (N.leb_spec a b); try lia
         end.

Lemma decode_encode_char c bs r :
  Utf8.encode_char c = Some bs ->
  Utf8.decode_N (map Byte.to_N bs ++ r) = Utf8.cons_opt c (Utf8.decode_N r).
Proof.
  unfold Utf8.encode_char.
  change 262144 with (64 * 64 * 64). change 4096 with (64 * 64).
  rewrite <- !N.Div0.div_div.
  destruct (split64 c) as (q1 & d1 & E1 & Hd1 & -> & ->).
  destruct (split64 q1) as (q2 & d2 & E2 & Hd2 & -> & ->).
  destruct (split64 q2) as (q3 & d3 & E3 & Hd3 & -> & ->).
  destruct (N.ltb_spec c 0x80) as [H1|H1].
  { intros [= <-]. cbn [map app]. rewrite to_N_byte_of by lia.
    rewrite decode_N_cons. by destruct (N.ltb_spec c 0x80); [|lia]. }
  destruct (N.ltb_spec c 0x800) as [H2|H2].
  { intros [= <-]. cbn [map app].
    rewrite !to_N_byte_of by lia. rewrite decode_N_cons.
    unfold Utf8.is_cont.
    replace ((0xC0 + q1 - 0xC0) * 64 + (0x80 + d1 - 0x80)) with c by lia.
    by by_cases_N. }
  destruct (N.ltb_spec c 0x10000) as [H3|H3].
  { destruct ((0xD800 <=? c) && (c <=? 0xDFFF)) eqn:Hs; [done|].
    intros [= <-]. cbn [map app].
    rewrite !to_N_byte_of by lia. rewrite decode_N_cons.
    unfold Utf8.is_cont.
    cbv zeta.
    replace ((0xE0 + q2 - 0xE0) * 4096 + (0x80 + d2 - 0x80) * 64
             + (0x80 + d1 - 0x80)) with c by lia.
    rewrite Hs. by by_cases_N. }
  destruct (N.ltb_spec c 0x110000) as [H4|H4]; [|done].
  intros [= <-]. cbn [map app].
  rewrite !to_N_byte_of by lia. rewrite decode_N_cons.
  unfold Utf8.is_cont.
  cbv zeta.
  replace ((0xF0 + q3 - 0xF0) * 262144
           + (0x80 + d3 - 0x80) * 4096
           + (0x80 + d2 - 0x80) * 64 + (0x80 + d1 - 0x80)) with c by lia.
  by by_cases_N.
Qed.

Lemma decode_encode s data :
  Utf8.encode s = Some data -> Utf8.decode data = Some s.
Proof.
  unfold Utf8.decode. revert data.
  induction s as [|c s IH]; intros data; simpl.
  - by intros [= <-].
  - destruct (Utf8.encode_char c) as [b|] eqn:Ec; [|done].
    destruct (Utf8.encode s) as [bs|]; [|done]. intros [= <-].
    rewrite map_app, (decode_encode_char _ _ _ Ec), (IH bs eq_refl). done.
Qed.

Local Open Scope nat_scope.

(** ** The cleaner on a readable raw file *)

Lemma split_scan_blank w c s :
  PyStr.isspace c = true ->
  PyStr.split_scan w (c :: s) = PyStr.emit w (PyStr.split_scan [] s).
Proof. intros H. simpl. by rewrite H. Qed.

Lemma split_scan_universal_newlines n : forall s w,
  length s <= n ->
  PyStr.split_scan w (universal_newlines s) = PyStr.split_scan w s.
Proof.
  induction n as [|n IH]; intros [|c s] w Hn; simpl in Hn; try lia; [done..|].
  cbn [universal_newlines].
  destruct (N.eqb_spec c CR) as [->|Hc].
  - rewrite !split_scan_blank by done. f_equal.
    destruct s as [|d s]; [done|].
    destruct (N.eqb_spec d LF) as [->|Hd].
    + rewrite split_scan_blank by done. simpl. apply IH. simpl in Hn. lia.
    + apply IH. lia.
  - cbn [PyStr.split_scan]. destruct (PyStr.isspace c); rewrite IH by lia; done.
Qed.

Lemma read_text_none p w s :
  faults w = [] -> Utf8.decode (content_in w p) = Some s ->
  read_text p w = (Return (universal_newlines s), w).
Proof.
  intros Hf Hs. unfold read_text, bind. by rewrite read_bytes_none, Hs.
Qed.

Lemma write_text_none p s data w :
  faults w = [] -> Utf8.encode s = Some data ->
  write_text p s w
  = (Return tt, with_fs (<[p := content_in w p ++ data]> (fs w)) w).
Proof.
  intros Hf Hs. unfold write_text. rewrite Hs. by apply write_bytes_none.
Qed.

Lemma encode_is_Some s :
  is_Some (Utf8.encode s)
  <-> Forall (fun c => is_Some (Utf8.encode_char c)) s.
Proof.
  induction s as [|c s IH]; simpl.
  - split; [by constructor|by eexists].
  - rewrite Forall_cons, <- IH.
    destruct (Utf8.encode_char c), (Utf8.encode s); split;
      try (by intros [[? [=]] _]); try (by intros [_ [? [=]]]);
      try (by intros [? [=]]); by eauto.
Qed.

Lemma Forall_join {A} (P : A -> Prop) sep l :
  Forall P sep -> Forall (Forall P) l -> Forall P (PyStr.join sep l).
Proof.
  intros Hsep. induction 1 as [|p ps Hp Hps IH]; [done|].
  destruct ps as [|q ps]; [done|].
  rewrite join_cons by done. rewrite !Forall_app. auto.
Qed.

Lemma Forall_emit (P : N -> Prop) w rest :
  Forall P w -> Forall (Forall P) rest -> Forall (Forall P) (PyStr.emit w rest).
Proof. destruct w; [done|]. by constructor. Qed.

Lemma Forall_split_scan (P : N -> Prop) s : forall w,
  Forall P w -> Forall P s -> Forall (Forall P) (PyStr.split_scan w s).
Proof.
  induction s as [|c s IH]; intros w Hw Hs; simpl.
  - by apply Forall_emit.
  - inversion Hs; subst. destruct (PyStr.isspace c).
    + apply Forall_emit; [done|]. by apply IH.
    + apply IH; [|done]. rewrite Forall_app. by auto.
Qed.

Lemma Forall_clean_text (P : N -> Prop) s :
  P SP -> Forall P s -> Forall P (clean_text s).
Proof.
  intros HSP Hs. rewrite clean_text_join_split.
  apply Forall_join; [by repeat constructor|].
  by apply Forall_split_scan.
Qed.

Lemma Forall_split (P : N -> Prop) sep s :
  Forall P s -> Forall (Forall P) (PyStr.split sep s).
Proof.
  induction 1 as [|c s Hc Hs IH]; simpl; [by repeat constructor|].
  destruct (c =? sep)%N; [by constructor|].
  destruct (PyStr.split sep s) as [|l ls]; [by repeat constructor|].
  inversion IH; subst. by repeat constructor.
Qed.

Lemma Forall_strip_metadata (P : N -> Prop) s :
  P LF -> Forall P s -> Forall P (strip_metadata s).
Proof.
  intros HLF Hs. unfold strip_metadata. destruct (_ <? _); [|done].
  apply Forall_join; [by repeat constructor|].
  apply Forall_drop. by apply Forall_split.
Qed.

Lemma decode_encodable data s :
  Utf8.decode data = Some s ->
  Forall (fun c => is_Some (Utf8.encode_char c)) s.
Proof. intros H%encode_decode. apply encode_is_Some. by eexists. Qed.

Lemma open_read_missing p w o w' :
  fs w !! p = None -> open_read p w = (o, w') ->
  exists e, o = Raise (Exc e).
Proof.
  intros Hp. unfold open_read, bind, fault, get.
  destruct (faults w) as [|[e|] rest]; simpl; rewrite ?Hp;
    intros [= <- <-]; by eauto.
Qed.

Lemma clean_text_file_run raw_file clean_file w :
  faults w = [] -> raw_file <> clean_file ->
  is_Some (fs w !! raw_file) ->
  forall s, Utf8.decode (content_in w raw_file) = Some s ->
  exists data,
    Utf8.encode (clean_text s) = Some data
    /\ TextProcessor.clean_text_file raw_file clean_file w
       = (Return tt, with_fs (<[clean_file := data]> (fs w)) w).
Proof.
  intros Hf Hne Hraw s Hs.
  assert (is_Some (Utf8.encode (clean_text s))) as [data Hdata].
  { apply encode_is_Some, Forall_clean_text; [by eexists|].
    by eapply decode_encodable. }
  exists data. split; [done|].
  unfold TextProcessor.clean_text_file, try_except,
    TextProcessor.clean_attempt, bind.
  rewrite open_read_none by done. rewrite (read_text_none _ _ s) by done.
  rewrite open_write_none by done.
  assert (clean_text (universal_newlines s) = clean_text s) as ->.
  { rewrite !clean_text_join_split. unfold PyStr.split_ws.
    by rewrite (split_scan_universal_newlines (length s)). }
  rewrite (write_text_none _ _ data) by done.
  unfold content_in. simpl. rewrite lookup_insert_eq. simpl.
  unfold with_fs. simpl. by rewrite insert_insert_eq.
Qed.

Lemma upload_none p imgname w :
  faults w = [] -> is_Some (fs w !! p) ->
  upload p imgname w
  = (Return (next_id w),
     log_event (EvUpload imgname (next_id w))
       (with_drive (uploaded w p) (next_id w + 1)%N w)).
Proof.
  intros Hf Hp. unfold upload, bind.
  by rewrite open_read_none, read_bytes_none, fault_none.
Qed.

Lemma export_media_none id data w :
  faults w = [] -> drive w !! id = Some data ->
  export_media id w = (Return data, log_event (EvExport id) w).
Proof.
  intros Hf Hd. unfold export_media, bind, modify, get.
  rewrite fault_none by done. simpl. by rewrite Hd.
Qed.

Lemma delete_file_none id w :
  faults w = [] ->
  delete_file id w
  = (Return tt, log_event (EvDelete id)
                  (with_drive (delete id (drive w)) (next_id w) w)).
Proof. intros Hf. unfold delete_file, bind. by rewrite fault_none. Qed.

Lemma image_steps_none config p w content :
  faults w = [] -> is_Some (fs w !! p) ->
  ~ already_processed config w p ->
  OCRProcessor.raw_texts_dir config <> OCRProcessor.texts_dir config ->
  Utf8.decode (recognise w (content_in w p)) = Some content ->
  exists raw_data clean_data w',
    Utf8.encode (strip_metadata content) = Some raw_data
    /\ Utf8.encode (clean_text (strip_metadata content)) = Some clean_data
    /\ image_steps config p w = (Return (true, None), w')
    /\ fs w' = <[OCRProcessor.artifact (OCRProcessor.texts_dir config)
                   (PyPath.stem p) := clean_data]>
                 (<[OCRProcessor.artifact (OCRProcessor.raw_texts_dir config)
                      (PyPath.stem p) := raw_data]> (fs w))
    /\ faults w' = [] /\ recognise w' = recognise w.
Proof.
  intros Hf Hp Hnew Hdirs Hc.
  assert (is_Some (Utf8.encode (strip_metadata content))) as [raw_data Hraw].
  { apply encode_is_Some, Forall_strip_metadata; [by eexists|].
    by eapply decode_encodable. }
  unfold image_steps. cbv zeta.
  set (raw := OCRProcessor.artifact (OCRProcessor.raw_texts_dir config) _).
  set (txt := OCRProcessor.artifact (OCRProcessor.texts_dir config) _).
  assert (raw <> txt) as Hne by (by intros [? _]%artifact_inj).
  assert (bool_decide (is_Some (fs w !! txt))
          && bool_decide (is_Some (fs w !! raw)) = false) as Hskip.
  { apply not_true_is_false. intros [Ht Hr]%andb_prop. apply Hnew.
    split; by eapply bool_decide_eq_true_1. }
  unfold bind at 1 2. unfold path_exists at 1 2, get. rewrite Hskip.
  unfold bind at 1. rewrite upload_none by done.
  set (w1 := log_event _ _).
  unfold bind at 1.
  rewrite (export_media_none _ (recognise w (content_in w p)))
    by (done || apply lookup_insert_eq).
  set (w2 := log_event _ w1). rewrite Hc.
  unfold bind at 1. rewrite open_write_none by done.
  set (w3 := with_fs _ w2).
  unfold bind at 1. rewrite (write_text_none _ _ raw_data) by done.
  set (w4 := with_fs _ w3).
  unfold bind at 1. rewrite delete_file_none by done.
  set (w5 := log_event _ _).
  assert (fs w5 = <[raw := raw_data]> (fs w)) as F5.
  { simpl. unfold content_in. simpl. rewrite lookup_insert_eq. simpl.
    by rewrite insert_insert_eq. }
  destruct (clean_text_file_run raw txt w5) with (s := strip_metadata content)
    as (clean_data & Hclean & E); [done|done| | |].
  { rewrite F5, lookup_insert_eq. by eexists. }
  { unfold content_in. rewrite F5, lookup_insert_eq. simpl.
    by apply decode_encode. }
  exists raw_data, clean_data. eexists. split; [done|]. split; [done|].
  unfold bind. rewrite E. split; [done|]. split; [by rewrite <- F5|done].
Qed.





(** X11. The cleaned text does not depend on the line-end convention of
    the raw file: translating CR LF and CR to LF, as reading in text
    mode does, changes nothing that cleaning keeps. *)
Theorem clean_text_ignores_line_endings (s : list N) :
  clean_text (universal_newlines s) = clean_text s.
Proof.
  rewrite !clean_text_join_split. unfold PyStr.split_ws.
  by rewrite (split_scan_universal_newlines (length s)).
Qed.

(** X12. The cleaner at work.  When nothing fails and the raw file is
    there and holds UTF-8 text [s], [clean_text_file] returns, the clean
    file holds the encoding of [clean_text s] (which exists: cleaning
    never makes a text unencodable), and nothing else has changed. *)
Theorem clean_text_file_cleans (raw_file clean_file : path) (w : World)
    (s : list N) :
  faults w = [] -> raw_file <> clean_file ->
  is_Some (fs w !! raw_file) ->
  Utf8.decode (content_in w raw_file) = Some s ->
  exists data,
    Utf8.encode (clean_text s) = Some data
    /\ TextProcessor.clean_text_file raw_file clean_file w
       = (Return tt, with_fs (<[clean_file := data]> (fs w)) w).
Proof. intros Hf Hne Hraw Hs. by apply clean_text_file_run. Qed.

Lemma clean_text_file_cleans_witness :
  let w := Sample.world
             [(Sample.raw_a, Sample.b "Hello" ++ [x0d; x0a] ++ Sample.b " world")]
             [] [] in
  exists data,
    Utf8.encode (clean_text (lit "Hello" ++ [CR; LF] ++ lit " world"))
    = Some data
    /\ TextProcessor.clean_text_file Sample.raw_a Sample.txt_a w
       = (Return tt, with_fs (<[Sample.txt_a := data]> (fs w)) w).
Proof.
  intros w.
  apply (clean_text_file_cleans Sample.raw_a Sample.txt_a w
           (lit "Hello" ++ [CR; LF] ++ lit " world")).
  - reflexivity.
  - discriminate.
  - vm_compute. eexists. reflexivity.
  - vm_compute. reflexivity.
Defined.

(** X13. Cleaning a raw file that does not exist does nothing and says
    nothing to its caller: both attempts fail on opening the file, the
    call returns normally, and no file is created or changed. *)
Theorem clean_text_file_missing_raw (raw_file clean_file : path) (w : World) :
  fs w !! raw_file = None ->
  exists w', TextProcessor.clean_text_file raw_file clean_file w
             = (Return tt, w')
             /\ unchanged w w'.
Proof.
  intros Hraw.
  unfold TextProcessor.clean_text_file, try_except.
  destruct (TextProcessor.clean_attempt raw_file clean_file w)
    as [o w1] eqn:E1.
  unfold TextProcessor.clean_attempt in E1.
  apply bind_inv in E1 as [(? & w0 & E0 & _)|(e1 & E1 & ->)].
  { by destruct (open_read_missing _ _ _ _ Hraw E0). }
  destruct (open_read_missing _ _ _ _ Hraw E1) as [e [= ->]].
  apply open_read_unchanged in E1 as U1.
  destruct (TextProcessor.copy_raw raw_file clean_file w1) as [o w2] eqn:E2.
  unfold TextProcessor.copy_raw in E2.
  assert (fs w1 !! raw_file = None) as Hraw1 by (by destruct U1 as [-> _]).
  apply bind_inv in E2 as [(? & w0 & E0 & _)|(e2 & E2 & ->)].
  { by destruct (open_read_missing _ _ _ _ Hraw1 E0). }
  destruct (open_read_missing _ _ _ _ Hraw1 E2) as [e' [= ->]].
  apply open_read_unchanged in E2 as U2.
  exists w2. split; [done|]. by eapply unchanged_trans.
Qed.

Lemma clean_text_file_missing_raw_witness :
  exists w', TextProcessor.clean_text_file Sample.raw_a Sample.txt_a
               Scenario.one_image
             = (Return tt, w')
             /\ unchanged Scenario.one_image w'.
Proof.
  apply (clean_text_file_missing_raw Sample.raw_a Sample.txt_a
           Scenario.one_image).
  vm_compute. reflexivity.
Defined.

(** X14. One new image, nothing failing.  The call returns success; the
    raw artifact holds the recognised text without its two metadata
    lines, the clean artifact holds the cleaned form of that same text,
    and no other file has changed. *)
Theorem new_image_artifacts (config : OCRConfig.t) (p : path) (w : World)
    (content : list N) :
  faults w = [] -> is_Some (fs w !! p) ->
  ~ already_processed config w p ->
  OCRProcessor.raw_texts_dir config <> OCRProcessor.texts_dir config ->
  Utf8.decode (recognise w (content_in w p)) = Some content ->
  exists raw_data clean_data w',
    Utf8.encode (strip_metadata content) = Some raw_data
    /\ Utf8.encode (clean_text (strip_metadata content)) = Some clean_data
    /\ OCRProcessor.extract_text_from_image config p w
       = (Return (true, None), w')
    /\ fs w' = <[OCRProcessor.artifact (OCRProcessor.texts_dir config)
                   (PyPath.stem p) := clean_data]>
                 (<[OCRProcessor.artifact (OCRProcessor.raw_texts_dir config)
                      (PyPath.stem p) := raw_data]> (fs w)).
Proof.
  intros Hf Hp Hnew Hdirs Hc.
  destruct (image_steps_none config p w content)
    as (raw_data & clean_data & w' & E1 & E2 & E & F & _); try done.
  exists raw_data, clean_data, w'. repeat split; try done.
  unfold OCRProcessor.extract_text_from_image, try_except.
  match goal with |- context [match ?m w with _ => _ end] =>
    change m with (image_steps config p)
  end.
  by rewrite E.
Qed.

Lemma new_image_artifacts_witness :
  let w := Scenario.one_image in
  exists raw_data clean_data w',
    Utf8.encode (strip_metadata Sample.export) = Some raw_data
    /\ Utf8.encode (clean_text (strip_metadata Sample.export))
       = Some clean_data
    /\ OCRProcessor.extract_text_from_image Sample.config Sample.a_png w
       = (Return (true, None), w')
    /\ fs w' = <[Sample.txt_a := clean_data]>
                 (<[Sample.raw_a := raw_data]> (fs w)).
Proof.
  intros w.
  apply (new_image_artifacts Sample.config Sample.a_png w Sample.export).
  - reflexivity.
  - vm_compute. eexists. reflexivity.
  - intros [[x Hx] _]. vm_compute in Hx. discriminate.
  - discriminate.
  - vm_compute. reflexivity.
Defined.



Example clean_run_scenario :
  fst (OCRProcessor.process_all_images Sample.config Scenario.one_image)
  = Return (mkResult 1 1 0 [] [Sample.a_png]).
Proof. by vm_compute. Qed.

(** ** Combination with headers, nothing failing *)










Lemma header_output_not_candidate output_dir text_dir w f :
  f ∈ candidates text_dir w -> f <> header_output output_dir text_dir w.
Proof.
  intros (_ & _ & _ & Hn)%elem_of_candidates ->.
  unfold header_output in Hn. by rewrite name_child in Hn.
Qed.



(** An input that is not UTF-8 does not stop the combination: its
    section holds the error message. *)
Example undecodable_input_section :
  file_body (Sample.world [(Sample.x_txt, [xff])] [] []) Sample.x_txt
  = lit "[Error reading file: 'utf-8' codec can't decode]" ++ [LF].
Proof. by vm_compute. Qed.

(** X17. A combination never modifies its inputs.  Whatever happens to
    it, in either mode, every file it combines has afterwards the
    content it had before: the one file written is the output, whose
    name makes it no candidate. *)
Theorem combination_keeps_inputs (config : OCRConfig.t) (output_dir : text)
    (text_dir : path) (w : World) (f : path) :
  TextProcessor._get_text_directory config output_dir = Some text_dir ->
  f ∈ candidates text_dir w ->
  fs (snd (TextProcessor.combine_texts config output_dir w)) !! f = fs w !! f
  /\ fs (snd (TextProcessor.combine_texts_with_headers config output_dir w))
       !! f
     = fs w !! f.
Proof.
  intros Hdir Hf. split.
  - apply (combine_texts_frame config output_dir text_dir w Hdir).
    intros ->. eapply no_header_output_not_candidate.
    rewrite sorted_Permutation. exact Hf.
  - apply (combine_texts_with_headers_frame config output_dir text_dir w Hdir).
    by apply header_output_not_candidate.
Qed.

Lemma combination_keeps_inputs_witness :
  let w := Sample.two_texts in
  fs (snd (TextProcessor.combine_texts Sample.config (lit "texts") w))
    !! Sample.x_txt = fs w !! Sample.x_txt
  /\ fs (snd (TextProcessor.combine_texts_with_headers Sample.config
                (lit "texts") w)) !! Sample.x_txt
     = fs w !! Sample.x_txt.
Proof.
  intros w.
  apply (combination_keeps_inputs Sample.config (lit "texts") [lit "texts"]).
  - reflexivity.
  - apply elem_of_candidates. vm_compute. repeat split. by eexists.
Defined.

(** X18. Nothing to combine.  When the directory name is neither
    [texts] nor [raw_texts], or the directory holds no candidate, both
    combinations return [None] and leave the world as it is: no file is
    created, the clock is not read. *)
Theorem combination_without_input (config : OCRConfig.t) (output_dir : text)
    (w : World) :
  match TextProcessor._get_text_directory config output_dir with
  | None => True
  | Some text_dir => candidates text_dir w = []
  end ->
  TextProcessor.combine_texts config output_dir w = (Return None, w)
  /\ TextProcessor.combine_texts_with_headers config output_dir w
     = (Return None, w).
Proof.
  unfold TextProcessor.combine_texts, TextProcessor.combine_texts_with_headers,
    try_except.
  destruct (TextProcessor._get_text_directory config output_dir)
    as [text_dir|]; [|done].
  intros Hc. unfold bind. rewrite get_combinable_files_run, Hc. done.
Qed.

Lemma combination_without_input_witness :
  TextProcessor.combine_texts Sample.config (lit "output") Sample.two_texts
  = (Return None, Sample.two_texts)
  /\ TextProcessor.combine_texts_with_headers Sample.config (lit "output")
       Sample.two_texts
     = (Return None, Sample.two_texts).
Proof.
  apply (combination_without_input Sample.config (lit "output")
           Sample.two_texts).
  exact I.
Defined.

(** ** What the logger and the summary print *)

Local Open Scope nat_scope.

Lemma console_log flag l m o :
  OCRLogger.console (OCRLogger.log flag l m o) = OCRLogger.console o.
Proof.
  unfold OCRLogger.log. destruct flag; [|done].
  by destruct (_ <=? _).
Qed.

Lemma console_info colors flag m c o :
  OCRLogger.console (OCRLogger.info colors flag m c o)
  = OCRLogger.console o ++ [painted colors c m].
Proof. unfold OCRLogger.info. by rewrite console_log. Qed.

Lemma console_success colors flag m o :
  OCRLogger.console (OCRLogger.success colors flag m o)
  = OCRLogger.console o ++ [painted colors (OCRLogger.GREEN colors) m].
Proof. unfold OCRLogger.success. by rewrite console_log. Qed.

Lemma console_error colors flag m o :
  OCRLogger.console (OCRLogger.error colors flag m o)
  = OCRLogger.console o ++ [painted colors (OCRLogger.RED colors) m].
Proof. unfold OCRLogger.error. by rewrite console_log. Qed.

Lemma console_show_errors colors flag errors : forall o,
  OCRLogger.console (Summary.show_errors colors flag errors o)
  = OCRLogger.console o
    ++ map (fun e => painted colors (OCRLogger.RED colors) (lit "  - " ++ e))
           errors.
Proof.
  induction errors as [|e errors IH]; intros o; simpl.
  - by rewrite app_nil_r.
  - by rewrite IH, console_error, <- app_assoc.
Qed.

(** X19. The summary of a run that found images.  After the three
    banner lines it prints the success count exactly when something
    succeeded; exactly when something failed it prints the failure
    count, the line [Error details:] and one line for each of the last
    five error messages of the result, fewer if fewer files failed,
    oldest first; and it closes with the advice to check the
    configuration exactly when nothing succeeded.  One of the two counts
    is always printed. *)
Theorem run_summary (config : OCRConfig.t) (w w' : World)
    (r : ProcessingResult) (colors : OCRLogger.Colors) (flag : bool)
    (o : OCRLogger.Output) :
  OCRProcessor.process_all_images config w = (Return r, w') ->
  discovered config w <> [] ->
  let shown := drop (failed r - 5) (errors r) in
  OCRLogger.console
    (Summary._display_processing_summary colors flag
       (successful r) (failed r) (errors r) o)
  = OCRLogger.console o
    ++ [painted colors (OCRLogger.WHITE colors) ([LF] ++ repeat 61%N 60);
        painted colors (OCRLogger.BOLD colors) (lit "PROCESSING SUMMARY");
        painted colors (OCRLogger.WHITE colors) (repeat 61%N 60)]
    ++ (if 0 <? successful r
        then [painted colors (OCRLogger.GREEN colors)
                (lit "Successfully processed: "
                 ++ PyStr.of_nat (successful r) ++ lit " files")]
        else [])
    ++ (if 0 <? failed r then failure_block colors (failed r) shown else [])
    ++ (if (successful r =? 0) && (0 <? failed r)
        then [painted colors (OCRLogger.RED colors)
                (lit "No files were successfully processed. "
                 ++ lit "Please check your configuration and try again.")]
        else [])
  /\ length shown = Nat.min 5 (failed r)
  /\ 0 < successful r + failed r.
Proof.
  intros E Hd shown.
  assert (length (errors r) = failed r
          /\ successful r + failed r = length (discovered config w))
    as [Hlen Htot].
  { apply process_all_images_run in E.
    inversion E as [|w1 Hw1 Hs Hd'|w1 t w2 w3 Hw1 Hs Hd' Hloop Hcomb]; subst;
      [done|].
    pose proof (process_loop_errors _ _ _ _ _ _ Hloop) as [E1 _].
    pose proof (process_loop_counts _ _ _ _ _ _ Hloop) as [E2 _].
    simpl in *. lia. }
  assert (0 < length (discovered config w))
    by (destruct (discovered config w); [done|simpl; lia]).
  split; [|split; [|lia]].
  2: { unfold shown. rewrite length_drop. lia. }
  subst shown.
  unfold Summary._display_processing_summary, Summary.info, Summary.success,
    Summary.error. cbv zeta.
  destruct (Nat.ltb_spec 0 (failed r)) as [Hf|Hf].
  - destruct (errors r) as [|e errs] eqn:Ee; [simpl in Hlen; lia|].
    cbv iota. rewrite <- Ee in *. rewrite Hlen.
    destruct (0 <? successful r), (successful r =? 0); cbn [andb];
      rewrite ?console_error, console_show_errors, !console_error,
        ?console_success, !console_info;
      unfold failure_block; by rewrite <- ?app_assoc, ?app_nil_r.
  - rewrite andb_false_r.
    destruct (Nat.ltb_spec 0 (successful r)); [|lia].
    rewrite console_success, !console_info.
    by rewrite <- !app_assoc, app_nil_r.
Qed.

Lemma run_summary_witness :
  let r := Report.one_of_two in
  let colors := Report.tags in
  let o := OCRLogger.mkOutput [] [] in
  let shown := drop (failed r - 5) (errors r) in
  OCRLogger.console
    (Summary._display_processing_summary colors true
       (successful r) (failed r) (errors r) o)
  = OCRLogger.console o
    ++ [painted colors (OCRLogger.WHITE colors) ([LF] ++ repeat 61%N 60);
        painted colors (OCRLogger.BOLD colors) (lit "PROCESSING SUMMARY");
        painted colors (OCRLogger.WHITE colors) (repeat 61%N 60)]
    ++ (if 0 <? successful r
        then [painted colors (OCRLogger.GREEN colors)
                (lit "Successfully processed: "
                 ++ PyStr.of_nat (successful r) ++ lit " files")]
        else [])
    ++ (if 0 <? failed r then failure_block colors (failed r) shown else [])
    ++ (if (successful r =? 0) && (0 <? failed r)
        then [painted colors (OCRLogger.RED colors)
                (lit "No files were successfully processed. "
                 ++ lit "Please check your configuration and try again.")]
        else [])
  /\ length shown = Nat.min 5 (failed r)
  /\ 0 < successful r + failed r.
Proof.
  intros r colors o.
  apply (run_summary Sample.config Sample.second_upload_fails
           (snd (OCRProcessor.process_all_images Sample.config
                   Sample.second_upload_fails)) r colors true o).
  - vm_compute. reflexivity.
  - vm_compute. discriminate.
Defined.

(** Of seven error messages the summary shows the last five. *)
Example summary_shows_last_five :
  let r := Report.seven_failures in
  OCRLogger.console
    (Summary._display_processing_summary Report.tags false
       (successful r) (failed r) (errors r) (OCRLogger.mkOutput [] []))
  = [lit "<white>" ++ [LF] ++ repeat 61%N 60 ++ lit "<reset>";
     lit "<bold>PROCESSING SUMMARY<reset>";
     lit "<white>" ++ repeat 61%N 60 ++ lit "<reset>";
     lit "<red>Failed to process: 7 files<reset>";
     lit "<red>Error details:<reset>";
     lit "<red>  - e3<reset>"; lit "<red>  - e4<reset>";
     lit "<red>  - e5<reset>"; lit "<red>  - e6<reset>";
     lit "<red>  - e7<reset>";
     lit ("<red>No files were successfully processed. "
          ++ "Please check your configuration and try again.<reset>")].
Proof. by vm_compute. Qed.

(** Debug messages reach neither the console nor the log: the logger is
    set to the level INFO. *)
Lemma debug_is_silent flag message o :
  OCRLogger.debug flag message o = o.
Proof. unfold OCRLogger.debug, OCRLogger.log. by destruct flag. Qed.

(** ** Documents left on the drive *)

Local Open Scope nat_scope.

#[local] Instance drive_same_preorder : PreOrder drive_same.
Proof.
  split; [by intros w|].
  intros w1 w2 w3 H1 H2. unfold drive_same in *. congruence.
Qed.

Lemma handle_text_combination_drive config w :
  drive (snd (OCRProcessor._handle_text_combination config w)) = drive w.
Proof.
  by apply (ok_handle_text_combination drive_same (fun _ => True)
              (fun _ => True)).
Qed.

Lemma extract_text_from_image_drive config p w r w' :
  OCRProcessor.extract_text_from_image config p w = (Return r, w') ->
  size (drive w') <= size (drive w) + (if fst r then 0 else 1).
Proof.
  intros [[-> H]|(e & -> & H)]%extract_text_from_image_steps; simpl.
  - apply image_steps_Return in H
      as [[_ ->]|(_ & ? & ? & _ & _ & -> & _)]; [lia|].
    rewrite map_size_delete. destruct (drive w !! next_id w); simpl; lia.
  - apply image_steps_Raise in H as [(_ & -> & _)|(-> & _)]; [lia|].
    unfold uploaded. rewrite map_size_insert.
    destruct (drive w !! next_id w); simpl; lia.
Qed.

Lemma process_loop_drive config files : forall t w t' w',
  OCRProcessor.process_loop config files t w = (Return t', w') ->
  size (drive w') + OCRProcessor.t_failed t
  <= size (drive w) + OCRProcessor.t_failed t'.
Proof.
  induction files as [|f files IH]; intros t w t' w'; simpl.
  - intros [= <- <-]. lia.
  - intros (r & w1 & E1 & E2)%bind_Return.
    apply extract_text_from_image_drive in E1.
    apply IH in E2. destruct r as [[|] msg]; simpl in *; lia.
Qed.

(** X20. A run leaves at most one document on the drive for each image
    that failed: the number of remote documents after the run exceeds
    the number before it by no more than the failed count.  In
    particular a run without failures leaves none behind. *)
Theorem leaked_documents_bounded (config : OCRConfig.t) (w w' : World)
    (r : ProcessingResult) :
  OCRProcessor.process_all_images config w = (Return r, w') ->
  size (drive w') <= size (drive w) + failed r.
Proof.
  intros E. apply process_all_images_run in E.
  inversion E as [|w1 Hw1 Hs Hd|w1 t w2 w3 Hw1 Hs Hd Hloop Hcomb]; subst.
  - destruct (service w); simpl; lia.
  - apply process_loop_drive in Hloop. simpl in *.
    assert (drive w' = drive w2) as ->.
    { destruct (0 <? OCRProcessor.t_successful t); [|by subst].
      pose proof (handle_text_combination_drive config w2) as H.
      by rewrite Hcomb in H. }
    destruct (service w); simpl in *; lia.
Qed.

Lemma leaked_documents_bounded_witness :
  size (drive (snd (OCRProcessor.process_all_images Sample.config
                      Scenario.delete_fails)))
  <= size (drive Scenario.delete_fails) + 1.
Proof.
  apply (leaked_documents_bounded Sample.config Scenario.delete_fails
           (snd (OCRProcessor.process_all_images Sample.config
                   Scenario.delete_fails))
           (mkResult 1 0 1
              [lit "Google API error processing a.png: HttpError 500"] [])).
  vm_compute. reflexivity.
Defined.

(** The failed deletion of the scenario leaves exactly one document. *)
Example delete_fails_leaks_one :
  size (drive (snd (OCRProcessor.process_all_images Sample.config
                      Scenario.delete_fails))) = 1.
Proof. by vm_compute. Qed.

(** ** Running again *)






